(** * math-renderer: the incremental math rendering pipeline

    A shallow embedding of [src/math-renderer.js]: the two delimiter
    patterns and their global replacement, the walk over the document
    tree, the per-file HTML transformation, the change cache and the
    top-level loop over the enumerated files.

    Strings are byte strings.  The patterns only discriminate on the
    dollar sign and the backslash, both ASCII, so positions of matches in
    a UTF-8 byte string and in the UTF-16 string JavaScript sees agree. *)

From Stdlib Require Import Ascii String.
From stdpp Require Import gmap strings list fin_maps.

#[local] Set Warnings "-register-all".

(** ** Text patterns *)

Module Pattern.

Definition isDollar (c : ascii) : bool := Ascii.eqb c "$".
Definition isBackslash (c : ascii) : bool := Ascii.eqb c "\".

(** The result of one successful [exec]: the text before the match, the
    first capture group and the text after the match. *)
Definition Match : Type := string * string * string.

Definition shift (c : ascii) (m : Match) : Match :=
  match m with (before, cap, after) => (String c before, cap, after) end.

Definition grow (c : ascii) (m : string * string) : string * string :=
  match m with (cap, after) => (String c cap, after) end.

(** [\$\$] at the current position: what follows it. *)
Definition stripDollars (s : string) : option string :=
  match s with
  | String c1 (String c2 r) =>
      if isDollar c1 && isDollar c2 then Some r else None
  | _ => None
  end.

(** [(.*?)\$\$] under the [s] flag: the shortest run of arbitrary
    characters that is followed by two dollars. *)
Fixpoint lazyUntilDollars (s : string) : option (string * string) :=
  match stripDollars s with
  | Some after => Some ("", after)
  | None =>
      match s with
      | EmptyString => None
      | String c r => grow c <$> lazyUntilDollars r
      end
  end.

(** [/\$\$(.*?)\$\$/] tried at the current position. *)
Definition matchDisplay (s : string) : option (string * string) :=
  stripDollars s ≫= lazyUntilDollars.

(** [displayRegex.exec]: the leftmost position at which the pattern
    matches. *)
Fixpoint execDisplay (s : string) : option Match :=
  match matchDisplay s with
  | Some (cap, after) => Some ("", cap, after)
  | None =>
      match s with
      | EmptyString => None
      | String c r => shift c <$> execDisplay r
      end
  end.

(** [[^\$]*?\$]: the run of non-dollar characters up to the next dollar. *)
Fixpoint untilDollar (s : string) : option (string * string) :=
  match s with
  | EmptyString => None
  | String c r =>
      if isDollar c then Some ("", r) else grow c <$> untilDollar r
  end.

(** [/(?<!\\)\$([^\$]+?)\$/] tried at the current position; [escaped]
    tells whether the character just before it is a backslash. *)
Definition matchInline (escaped : bool) (s : string) : option (string * string) :=
  if escaped then None
  else
    match s with
    | EmptyString => None
    | String c r =>
        if isDollar c then
          match untilDollar r with
          | Some (String c1 cap, after) => Some (String c1 cap, after)
          | _ => None
          end
        else None
    end.

(** [inlineRegex.exec] from a position whose predecessor is a backslash
    or not. *)
Fixpoint execInline (escaped : bool) (s : string) : option Match :=
  match matchInline escaped s with
  | Some (cap, after) => Some ("", cap, after)
  | None =>
      match s with
      | EmptyString => None
      | String c r => shift c <$> execInline (isBackslash c) r
      end
  end.

(** A text cut at the matches of a global pattern. *)
Inductive Piece : Type :=
| Lit (s : string)
| Span (tex : string).

(** The loop of [String.prototype.replace] with a global pattern: exec,
    emit, restart right after the match.  A match of either pattern
    ends with a dollar, so the restart position is never escaped and
    both patterns restart with the same [exec]. *)
Fixpoint matchAll (exec : string -> option Match) (fuel : nat) (s : string)
  : list Piece :=
  match fuel with
  | O => [Lit s]
  | S fuel' =>
      match exec s with
      | None => [Lit s]
      | Some (before, cap, after) =>
          Lit before :: Span cap :: matchAll exec fuel' after
      end
  end.

Definition displayPieces (s : string) : list Piece :=
  matchAll execDisplay (String.length s) s.

Definition inlinePieces (s : string) : list Piece :=
  matchAll (execInline false) (String.length s) s.

(** [regex.test(text)] on a fresh pattern. *)
Definition testDisplay (s : string) : bool := bool_decide (is_Some (execDisplay s)).
Definition testInline (s : string) : bool := bool_decide (is_Some (execInline false s)).

(** The captures, in the order the replacement callback sees them. *)
Fixpoint spans (ps : list Piece) : list string :=
  match ps with
  | [] => []
  | Lit _ :: ps' => spans ps'
  | Span t :: ps' => t :: spans ps'
  end.

(** The text a list of pieces was cut from, given the delimiter. *)
Fixpoint source (delim : string) (ps : list Piece) : string :=
  match ps with
  | [] => ""
  | Lit s :: ps' => s +:+ source delim ps'
  | Span t :: ps' => delim +:+ t +:+ delim +:+ source delim ps'
  end.

(** No dollar occurs in [s]. *)
Fixpoint dollarFree (s : string) : bool :=
  match s with
  | EmptyString => true
  | String c r => negb (isDollar c) && dollarFree r
  end.

(** Whether the position right after [s] is escaped, when the position
    right before [s] is escaped or not according to [e]. *)
Fixpoint endsEscaped (e : bool) (s : string) : bool :=
  match s with
  | EmptyString => e
  | String c r => endsEscaped (isBackslash c) r
  end.

Definition shiftBy (x : string) (m : Match) : Match :=
  match m with (before, cap, after) => (x +:+ before, cap, after) end.

(** Glue a text in front of the pieces of what follows it. *)
Definition prependLit (x : string) (ps : list Piece) : list Piece :=
  match ps with
  | Lit s :: ps' => Lit (x +:+ s) :: ps'
  | _ => Lit x :: ps
  end.

End Pattern.

(** ** The document tree and the substitution engine *)

Module Dom.
Import Pattern.

(** The nodes a parsed body can hold.  [nodeName] is what the DOM
    reports: upper case for HTML elements.  An element of the SVG
    namespace is a node kind of its own, [SvgElement]: its [className]
    is an [SVGAnimatedString] object, not a string, so that it is never
    [===] to a string; [Element] is every other element, whose
    [className] reflects the [class] attribute. *)
Inductive Node : Type :=
| Text (data : string)
| Comment (data : string)
| Element (nodeName : string) (attributes : list (string * string))
          (childNodes : list Node)
| SvgElement (nodeName : string) (attributes : list (string * string))
             (childNodes : list Node).

Fixpoint getAttribute (name : string) (attrs : list (string * string))
  : option string :=
  match attrs with
  | [] => None
  | (k, v) :: attrs' =>
      if String.eqb k name then Some v else getAttribute name attrs'
  end.

(** [className] of an [Element] reflects the [class] attribute, empty
    when absent. *)
Definition className (attrs : list (string * string)) : string :=
  default "" (getAttribute "class" attrs).

(** The text of the [Text] descendants, in tree order. *)
Fixpoint descendantText (n : Node) : string :=
  match n with
  | Text d => d
  | Comment _ => ""
  | Element _ _ cs | SvgElement _ _ cs =>
      (fix go (l : list Node) : string :=
         match l with
         | [] => ""
         | c :: l' => descendantText c +:+ go l'
         end) cs
  end.

Definition textContent (n : Node) : string :=
  match n with
  | Comment d => d
  | _ => descendantText n
  end.

Definition isMathBlock (attrs : list (string * string)) : bool :=
  String.eqb (className attrs) "latex-block".

Definition isOpaque (nodeName : string) : bool :=
  negb (negb (String.eqb nodeName "SCRIPT")
        && negb (String.eqb nodeName "CODE")
        && negb (String.eqb nodeName "PRE")).

(** One call of the typesetting collaborator. *)
Record Call : Type := MkCall { notation : string; displayMode : bool }.

(** What a walk leaves behind besides the tree: the collaborator calls
    in order and the [needsUpdate] flag of the enclosing transformer. *)
Record Out : Type := MkOut { calls : list Call; needsUpdate : bool }.

Definition quiet : Out := MkOut [] false.

Definition join (a b : Out) : Out :=
  MkOut (calls a ++ calls b) (needsUpdate a || needsUpdate b).

Definition dq : string := String "034" "".

Definition openContainer : string :=
  "<mjx-container display=" +:+ dq +:+ "true" +:+ dq +:+ " style=" +:+ dq
  +:+ "display: block; text-align: center; margin: 1em 0;" +:+ dq +:+ ">".

Definition closeContainer : string := "</mjx-container>".

Definition container (svg : string) : string :=
  openContainer +:+ svg +:+ closeContainer.

(** A place in a tree: the chain of ancestor elements of a hole, each
    with the siblings before and after. *)
Inductive Ctx : Type :=
| Hole
| Inside (nodeName : string) (attributes : list (string * string))
         (before : list Node) (inner : Ctx) (after : list Node)
| InsideSvg (nodeName : string) (attributes : list (string * string))
            (before : list Node) (inner : Ctx) (after : list Node).

Fixpoint plug (C : Ctx) (n : Node) : Node :=
  match C with
  | Hole => n
  | Inside name attrs before inner after =>
      Element name attrs (before ++ plug inner n :: after)
  | InsideSvg name attrs before inner after =>
      SvgElement name attrs (before ++ plug inner n :: after)
  end.

Fixpoint depth (C : Ctx) : nat :=
  match C with
  | Hole => 0
  | Inside _ _ _ inner _ | InsideSvg _ _ _ inner _ => S (depth inner)
  end.

(** No ancestor of the hole passes the math-block test, which an SVG
    ancestor never does. *)
Fixpoint unmarked (C : Ctx) : bool :=
  match C with
  | Hole => true
  | Inside _ attrs _ inner _ => negb (isMathBlock attrs) && unmarked inner
  | InsideSvg _ _ _ inner _ => unmarked inner
  end.




Section Engine.

(** [adaptor.innerHTML(mjPage.convert(tex, {display}))]; [None] when the
    typesetter throws. *)
Variable convert : string -> bool -> option string.

(** The children an element of the given tag gets when its [innerHTML]
    is set. *)
Variable parseInner : string -> string -> list Node.

(** [text.replace(regex, callback)] once the text is cut into pieces. *)
Fixpoint replaceWith (f : string -> option string) (ps : list Piece)
  : option string :=
  match ps with
  | [] => Some ""
  | Lit s :: ps' => rest ← replaceWith f ps'; Some (s +:+ rest)
  | Span t :: ps' =>
      m ← f t; rest ← replaceWith f ps'; Some (m +:+ rest)
  end.

Definition renderDisplay (texStr : string) : option string :=
  container <$> convert texStr true.

Definition renderInline (texStr : string) : option string :=
  convert texStr false.

Definition callsOf (display : bool) (ps : list Piece) : list Call :=
  (fun t => MkCall t display) <$> spans ps.

(** The text-node branch of [processNode]. *)
Definition processText (text : string) : option (list Node * Out) :=
  if testDisplay text || testInline text then
    text1 ← replaceWith renderDisplay (displayPieces text);
    text2 ← replaceWith renderInline (inlinePieces text1);
    Some (parseInner "div" text2,
          MkOut (callsOf true (displayPieces text)
                 ++ callsOf false (inlinePieces text1)) true)
  else Some ([Text text], quiet).

(** The marked-element branch of [processNode]. *)
Definition processMathBlock (node : Node) : option (list Node * Out) :=
  svg ← convert (textContent node) true;
  Some (parseInner "div" (container svg),
        MkOut [MkCall (textContent node) true] true).

(** [processNode]: the nodes that stand in the place of [node]
    afterwards, with the calls made and the flag. *)
Fixpoint processNode (node : Node) : option (list Node * Out) :=
  match node with
  | Text text => processText text
  | Comment _ => Some ([node], quiet)
  | Element name attrs cs =>
      if isMathBlock attrs then processMathBlock node
      else if isOpaque name then Some ([node], quiet)
      else
        r ← (fix each (l : list Node) : option (list Node * Out) :=
               match l with
               | [] => Some ([], quiet)
               | c :: l' =>
                   r1 ← processNode c;
                   r2 ← each l';
                   Some (r1.1 ++ r2.1, join r1.2 r2.2)
               end) cs;
        Some ([Element name attrs r.1], r.2)
  | SvgElement name attrs cs =>
      if isOpaque name then Some ([node], quiet)
      else
        r ← (fix each (l : list Node) : option (list Node * Out) :=
               match l with
               | [] => Some ([], quiet)
               | c :: l' =>
                   r1 ← processNode c;
                   r2 ← each l';
                   Some (r1.1 ++ r2.1, join r1.2 r2.2)
               end) cs;
        Some ([SvgElement name attrs r.1], r.2)
  end.

(** [Array.from(node.childNodes).forEach(processNode)]. *)
Fixpoint processChildren (l : list Node) : option (list Node * Out) :=
  match l with
  | [] => Some ([], quiet)
  | c :: l' =>
      r1 ← processNode c;
      r2 ← processChildren l';
      Some (r1.1 ++ r2.1, join r1.2 r2.2)
  end.

End Engine.

End Dom.

(** ** The file system, the change cache and the driver *)

Module Pipeline.
Import Pattern Dom.

(** The file system is a finite map from paths to entries.  A
    recursive [mkdir] walks the ancestors of its path; reading and
    writing a file look at the named path only. *)
Inductive Entry : Type :=
| Dir
| File (readable : bool) (content : string).

Record Stat : Type := MkStat {
  directories : nat;
  rendered : nat;
  copied : nat;
  skipped : nat;
  total : option nat
}.

Inductive Message : Type :=
| StartMsg (found : nat)
| SkipMsg (targetPath : string)
| CopyMsg (sourcePath : string)
| RenderMsg (sourcePath : string)
| CompletedMsg (st : Stat).

(** The module-level variables [cache] and [stat], the disk and the
    console. *)
Record World : Type := MkWorld {
  fsys : gmap string Entry;
  cache : gmap string string;
  stat : Stat;
  console : list Message
}.

Inductive Error : Type :=
| ENOENT (path : string)
| EACCES (path : string)
| EISDIR (path : string)
| EEXIST (path : string)
| ENOTDIR (path : string)
| SyntaxError
| RenderError.

(** A statement either completes or throws; nothing in the source
    catches, so a throw carries the world as it was left. *)
Inductive Result (A : Type) : Type :=
| Ok (a : A) (w : World)
| Throw (e : Error) (w : World).
Arguments Ok {A} a w.
Arguments Throw {A} e w.

Definition M (A : Type) : Type := World -> Result A.

(** The world a statement leaves, completed or not. *)
Definition worldOf {A} (r : Result A) : World :=
  match r with
  | Ok _ w => w
  | Throw _ w => w
  end.

(** A statement never takes the world out of [R]. *)
Definition preserves {A} (R : World -> World -> Prop) (m : M A) : Prop :=
  forall w, R w (worldOf (m w)).

Definition ret {A} (a : A) : M A := fun w => Ok a w.

Definition bind {A B} (m : M A) (k : A -> M B) : M B :=
  fun w =>
    match m w with
    | Ok a w' => k a w'
    | Throw e w' => Throw e w'
    end.

Definition throw {A} (e : Error) : M A := fun w => Throw e w.

Notation "'do' x <- m ; k" := (bind m (fun x => k))
  (at level 10, x name, m at level 100, k at level 200,
   format "'[v' 'do'  x  <-  m ; '/' k ']'").
Notation "m ;; k" := (bind m (fun _ => k))
  (at level 100, k at level 200, right associativity).

Definition blogRoot : string := "/Users/ntalbs/Blog".
Definition publicDir : string := "public".
Definition targetDir : string := "rendered-public".
(** [path.join(blogRoot, targetDir, 'math-cache.json')]. *)
Definition cacheFile : string :=
  blogRoot +:+ "/" +:+ targetDir +:+ "/" +:+ "math-cache.json".
Definition silent : bool := true.

(** What [glob.sync] is asked for: the paths below the public
    directory. *)
Definition sourceRoot : string := blogRoot +:+ "/" +:+ publicDir +:+ "/".
Definition underSource (path : string) : bool := String.prefix sourceRoot path.

Definition initStat : Stat := MkStat 0 0 0 0 None.

Definition initWorld (disk : gmap string Entry) : World :=
  MkWorld disk ∅ initStat [].

(** What may differ between the worlds before and after a statement. *)
Definition keepsEntry (p : string) (w w' : World) : Prop :=
  forall e, fsys w !! p = Some e -> fsys w' !! p = Some e.

Definition keepsCache (w w' : World) : Prop := cache w' = cache w.

Definition keepsCacheBut (q : string) (w w' : World) : Prop :=
  forall p, p <> q -> cache w' !! p = cache w !! p.


(** *** Primitive effects *)

Definition log (msg : Message) : M unit :=
  fun w => Ok tt (MkWorld (fsys w) (cache w) (stat w) (console w ++ [msg])).

Definition setStat (f : Stat -> Stat) : M unit :=
  fun w => Ok tt (MkWorld (fsys w) (cache w) (f (stat w)) (console w)).

Definition setDisk (f : gmap string Entry -> gmap string Entry) : M unit :=
  fun w => Ok tt (MkWorld (f (fsys w)) (cache w) (stat w) (console w)).

Definition setCache (f : gmap string string -> gmap string string) : M unit :=
  fun w => Ok tt (MkWorld (fsys w) (f (cache w)) (stat w) (console w)).

Definition getCache : M (gmap string string) := fun w => Ok (cache w) w.
Definition getStat : M Stat := fun w => Ok (stat w) w.

Definition statSync (path : string) : M Entry :=
  fun w =>
    match fsys w !! path with
    | Some e => Ok e w
    | None => Throw (ENOENT path) w
    end.

Definition existsSync (path : string) : M bool :=
  fun w => Ok (bool_decide (is_Some (fsys w !! path))) w.

(** What stands before each separator of a path, shortest first. *)
Fixpoint beforeSlashes (path : string) : list string :=
  match path with
  | EmptyString => []
  | String c r =>
      let deeper := String c <$> beforeSlashes r in
      if Ascii.eqb c "/" then "" :: deeper else deeper
  end.

(** The directories above a path, the root left out, outermost
    first. *)
Definition ancestors (path : string) : list string :=
  List.filter (fun p => negb (String.eqb p "")) (beforeSlashes path).

Definition isFile (disk : gmap string Entry) (path : string) : bool :=
  match disk !! path with
  | Some (File _ _) => true
  | _ => false
  end.

(** Each of the paths becomes a directory unless something is there. *)
Fixpoint mkdirs (paths : list string) (disk : gmap string Entry)
  : gmap string Entry :=
  match paths with
  | [] => disk
  | p :: ps =>
      mkdirs ps match disk !! p with
                | None => <[p := Dir]> disk
                | Some _ => disk
                end
  end.

(** [fs.mkdirSync(path, { recursive: true })]: the path and every
    missing directory above it are made.  A regular file above the path
    is [ENOTDIR], a regular file at the path [EEXIST], and a call that
    throws has made nothing. *)
Definition mkdirSync (path : string) : M unit :=
  fun w =>
    if existsb (isFile (fsys w)) (ancestors path) then Throw (ENOTDIR path) w
    else if isFile (fsys w) path then Throw (EEXIST path) w
    else setDisk (mkdirs (ancestors path ++ [path])) w.

Definition readFileSync (path : string) : M string :=
  fun w =>
    match fsys w !! path with
    | Some (File true content) => Ok content w
    | Some (File false _) => Throw (EACCES path) w
    | Some Dir => Throw (EISDIR path) w
    | None => Throw (ENOENT path) w
    end.

Definition writeFileSync (path data : string) : M unit :=
  fun w =>
    match fsys w !! path with
    | Some Dir => Throw (EISDIR path) w
    | _ => setDisk <[path := File true data]> w
    end.

Definition copyFileSync (src dest : string) : M unit :=
  do data <- readFileSync src;
  writeFileSync dest data.

(** *** String helpers of the runtime *)

(** [s.endsWith(suffix)]. *)
Definition endsWith (s suffix : string) : bool :=
  (String.length suffix <=? String.length s)
  && String.eqb
       (substring (String.length s - String.length suffix)
          (String.length suffix) s)
       suffix.

Fixpoint dropChars (n : nat) (s : string) : string :=
  match n, s with
  | S n', String _ r => dropChars n' r
  | _, _ => s
  end.

(** [s.replace(pattern, replacement)] with a string pattern: the first
    occurrence only.  The replacement used here holds no dollar, so none
    of the special replacement patterns applies. *)
Fixpoint replaceFirst (pattern replacement s : string) : string :=
  if String.prefix pattern s
  then replacement +:+ dropChars (String.length pattern) s
  else
    match s with
    | EmptyString => EmptyString
    | String c r => String c (replaceFirst pattern replacement r)
    end.

Definition getTargetPathFrom (sourcePath : string) : string :=
  replaceFirst publicDir targetDir sourcePath.

Definition ensureDir (dir : string) : M unit :=
  do present <- existsSync dir;
  if present then ret tt else mkdirSync dir.

Definition bump_directories (s : Stat) : Stat :=
  MkStat (S (directories s)) (rendered s) (copied s) (skipped s) (total s).
Definition bump_rendered (s : Stat) : Stat :=
  MkStat (directories s) (S (rendered s)) (copied s) (skipped s) (total s).
Definition bump_copied (s : Stat) : Stat :=
  MkStat (directories s) (rendered s) (S (copied s)) (skipped s) (total s).
Definition bump_skipped (s : Stat) : Stat :=
  MkStat (directories s) (rendered s) (copied s) (S (skipped s)) (total s).
Definition set_total (s : Stat) : Stat :=
  MkStat (directories s) (rendered s) (copied s) (skipped s)
    (Some (directories s + rendered s + copied s + skipped s)).

(** The world with one more file counted as skipped, and the world
    with a fingerprint stored. *)
Definition skippedIn (w : World) : World :=
  MkWorld (fsys w) (cache w) (bump_skipped (stat w)) (console w).

Definition withFingerprint (p h : string) (w : World) : World :=
  MkWorld (fsys w) (<[p := h]> (cache w)) (stat w) (console w).

(** The parsed document: its head element and its body, and whatever
    else [serialize] needs, kept in [shell]. *)
Record Document : Type := MkDocument {
  shell : string;
  headAttributes : list (string * string);
  headChildNodes : list Node;
  body : Node
}.

Section Program.

Variable convert : string -> bool -> option string.
Variable parseInner : string -> string -> list Node.
(** [new JSDOM(html).window.document]. *)
Variable parseDocument : string -> Document.
(** [dom.serialize()] of a document whose head holds the given children
    and in the place of whose body the given nodes stand. *)
Variable serialize : Document -> list Node -> list Node -> string.
(** [adaptor.innerHTML(svg.styleSheet(mjPage))]. *)
Variable styleSheet : string.
(** [crypto.createHash('md5').update(content).digest('hex')]. *)
Variable md5hex : string -> string.
(** [path.dirname]. *)
Variable dirname : string -> string.
(** [JSON.stringify(cache, null, 2)] and [JSON.parse]. *)
Variable JSON_stringify : gmap string string -> string.
Variable JSON_parse : string -> option (gmap string string).

Definition md5 (src : string) : M string :=
  do content <- readFileSync src;
  ret (md5hex content).

Definition isSrcNotChanged (src : string) : M bool :=
  do newMd5 <- md5 src;
  do c <- getCache;
  let same := bool_decide (c !! src = Some newMd5) in
  (if same then ret tt else setCache <[src := newMd5]>);;
  ret same.

Definition styleTag : Node :=
  Element "STYLE" [("id", "MJX-SVG-styles")] (parseInner "style" styleSheet).

Definition processHtml (sourcePath targetPath : string) : M unit :=
  do html <- readFileSync sourcePath;
  let document := parseDocument html in
  match processNode convert parseInner (body document) with
  | None => throw RenderError
  | Some (nodes, out) =>
      if needsUpdate out then
        writeFileSync targetPath
          (serialize document (headChildNodes document ++ [styleTag]) nodes);;
        setStat bump_rendered;;
        log (RenderMsg sourcePath)
      else
        copyFileSync sourcePath targetPath;;
        setStat bump_copied;;
        if silent then ret tt else log (CopyMsg sourcePath)
  end.

Definition process (sourcePath : string) : M unit :=
  let targetPath := getTargetPathFrom sourcePath in
  do sourcePathStat <- statSync sourcePath;
  match sourcePathStat with
  | Dir =>
      ensureDir targetPath;;
      setStat bump_directories
  | File _ _ =>
      if endsWith sourcePath ".md5" then ret tt
      else
        do unchanged <- isSrcNotChanged sourcePath;
        if unchanged then
          setStat bump_skipped;;
          if silent then ret tt else log (SkipMsg targetPath)
        else
          ensureDir (dirname targetPath);;
          if endsWith sourcePath ".html" then processHtml sourcePath targetPath
          else
            setStat bump_copied;;
            (if silent then ret tt else log (CopyMsg sourcePath));;
            copyFileSync sourcePath targetPath
  end.

(** [files.forEach(f => process(f))]. *)
Fixpoint forEach (f : string -> M unit) (files : list string) : M unit :=
  match files with
  | [] => ret tt
  | x :: files' => f x;; forEach f files'
  end.

Definition loadCache : M unit :=
  do present <- existsSync cacheFile;
  if present then
    do data <- readFileSync cacheFile;
    match JSON_parse data with
    | Some c => setCache (fun _ => c)
    | None => throw SyntaxError
    end
  else ret tt.

Definition saveCache : M unit :=
  do c <- getCache;
  writeFileSync cacheFile (JSON_stringify c).

(** The top-level statements of the module, for the list [files] that
    [glob.sync] returned: what comes before the loop, the loop, and what
    comes after it. *)
Definition prologue (found : nat) : M unit :=
  log (StartMsg found);;
  loadCache.

Definition epilogue : M unit :=
  saveCache;;
  setStat set_total;;
  do st <- getStat;
  log (CompletedMsg st).

Definition main (files : list string) : M unit :=
  prologue (length files);;
  forEach process files;;
  epilogue.

Definition run (files : list string) (disk : gmap string Entry) : Result unit :=
  main files (initWorld disk).

(** The part of [process] that a file reported as changed goes through,
    named for the statements below. *)
Definition reprocess (sourcePath : string) : M unit :=
  let targetPath := getTargetPathFrom sourcePath in
  ensureDir (dirname targetPath);;
  if endsWith sourcePath ".html" then processHtml sourcePath targetPath
  else
    setStat bump_copied;;
    (if silent then ret tt else log (CopyMsg sourcePath));;
    copyFileSync sourcePath targetPath.

End Program.

End Pipeline.

(** ** A concrete set of collaborators

    Small stand-ins for the typesetter, the tree library, the hash and
    the JSON codec, on which the model runs. *)

Module Sample.
Import Pattern Dom Pipeline.

(** A typesetter that rejects one notation and wraps every other. *)
Definition convert (tex : string) (display : bool) : option string :=
  if String.eqb tex "\frac{" then None
  else Some ("<svg>" +:+ tex +:+ "</svg>").

(** A tree library that wraps the markup it is given, unparsed, in one
    element. *)
Definition parseInner (tag html : string) : list Node :=
  [Element "MJX-CONTAINER" [("in", tag)] [Text html]].

Definition parseDocument (html : string) : Document :=
  MkDocument "<!DOCTYPE html>" [] [Element "TITLE" [] [Text "t"]]
    (Element "BODY" [] [Element "P" [] [Text html]]).

Definition serialize (d : Document) (headNodes bodyNodes : list Node) : string :=
  shell d +:+ "<head>" +:+ String.concat "" (descendantText <$> headNodes)
  +:+ "</head>" +:+ String.concat "" (descendantText <$> bodyNodes).

Definition styleSheet : string := "mjx-container{}".

Definition md5hex (content : string) : string := "md5:" +:+ content.

Fixpoint dirnameGo (s : string) : option string :=
  match s with
  | EmptyString => None
  | String c r =>
      match dirnameGo r with
      | Some d => Some (String c d)
      | None => if Ascii.eqb c "/" then Some EmptyString else None
      end
  end.

Definition dirname (path : string) : string :=
  match dirnameGo path with
  | Some EmptyString => "/"
  | Some d => d
  | None => "."
  end.

Definition newline : ascii := "010".

Definition JSON_stringify (c : gmap string string) : string :=
  String.concat ""
    ((fun kv => kv.1 +:+ String newline (kv.2 +:+ String newline ""))
       <$> map_to_list c).

Fixpoint linesOf (cur s : string) : list string :=
  match s with
  | EmptyString => []
  | String c r =>
      if Ascii.eqb c newline then String.rev cur :: linesOf "" r
      else linesOf (String c cur) r
  end.

Fixpoint pairUp (l : list string) : option (list (string * string)) :=
  match l with
  | [] => Some []
  | k :: v :: l' => (fun r => (k, v) :: r) <$> pairUp l'
  | _ => None
  end.

Definition JSON_parse (data : string) : option (gmap string string) :=
  list_to_map <$> pairUp (linesOf "" data).

Definition run : list string -> gmap string Entry -> Result unit :=
  Pipeline.run convert parseInner parseDocument serialize styleSheet
    md5hex dirname JSON_stringify JSON_parse.

Definition process : string -> M unit :=
  Pipeline.process convert parseInner parseDocument serialize styleSheet
    md5hex dirname.

Definition src (name : string) : string := "/Users/ntalbs/Blog/public/" +:+ name.
Definition dst (name : string) : string := "/Users/ntalbs/Blog/rendered-public/" +:+ name.

(** A small site and two runs over it; between the runs one file
    changes. *)
Definition site : gmap string Entry :=
  list_to_map
    [(src "a.html", File true "x $y$ and $$z$$");
     (src "b.md5", File true "0123");
     (src "c.txt", File true "ccc");
     (src "d", Dir)].

Definition listing : list string :=
  [src "a.html"; src "b.md5"; src "c.txt"; src "d"].

Definition afterFirstRun : World := worldOf (run listing site).

Definition siteLater : gmap string Entry :=
  <[src "c.txt" := File true "changed"]> (fsys afterFirstRun).


(** A site with a file that cannot be read. *)
Definition brokenSite : gmap string Entry :=
  list_to_map
    [(src "bad.txt", File false "?"); (src "good.txt", File true "ok")].

End Sample.

(** ** Notions used to state further properties *)

Module Notions.
Import Pattern Dom Pipeline.

(** [pattern] occurs somewhere in [s]. *)
Fixpoint occurs (pattern s : string) : bool :=
  String.prefix pattern s
  || match s with
     | EmptyString => false
     | String _ r => occurs pattern r
     end.

(** Neither pattern matches anywhere in the text. *)
Definition unmatched (text : string) : bool :=
  negb (testDisplay text || testInline text).

(** A tree in which the walk finds nothing to do: no text it reaches
    matches, no element it reaches is a math block. *)
Fixpoint plainNode (n : Node) : bool :=
  match n with
  | Text d => unmatched d
  | Comment _ => true
  | Element name attrs cs =>
      negb (isMathBlock attrs)
      && (isOpaque name
          || (fix all (l : list Node) : bool :=
                match l with
                | [] => true
                | c :: l' => plainNode c && all l'
                end) cs)
  | SvgElement name _ cs =>
      isOpaque name
      || (fix all (l : list Node) : bool :=
            match l with
            | [] => true
            | c :: l' => plainNode c && all l'
            end) cs
  end.

Definition counterSum (s : Stat) : nat :=
  directories s + rendered s + copied s + skipped s.

(** The entry at [q] is a file named like a hash sidecar. *)
Definition sidecarOn (disk : gmap string Entry) (q : string) : bool :=
  match disk !! q with
  | Some (File _ _) => endsWith q ".md5"
  | _ => false
  end.

(** The enumerated entries that are counted. *)
Definition countedEntries (disk : gmap string Entry) (files : list string)
  : nat :=
  length (List.filter (fun q => negb (sidecarOn disk q)) files).

(** The cache never loses a key. *)
Definition keepsCacheKeys (w w' : World) : Prop :=
  forall p, is_Some (cache w !! p) -> is_Some (cache w' !! p).

Definition keepsStat (w w' : World) : Prop := stat w' = stat w.

(** Every path that exists goes on existing. *)
Definition keepsPaths (w w' : World) : Prop :=
  forall p, is_Some (fsys w !! p) -> is_Some (fsys w' !! p).

(** An entry a completed run has dealt with: a directory whose target
    exists, a sidecar file, or a readable file whose fingerprint is
    stored. *)
Definition settled (md5hex : string -> string) (w : World) (q : string)
  : Prop :=
  match fsys w !! q with
  | Some Dir => is_Some (fsys w !! getTargetPathFrom q)
  | Some (File readable content) =>
      endsWith q ".md5" = true
      \/ (readable = true /\ cache w !! q = Some (md5hex content))
  | None => False
  end.

(** The world once a directory is ensured: as it was when the path
    exists, with the directory and the missing directories above it
    added when it does not. *)
Definition ensured (dir : string) (w : World) : World :=
  if bool_decide (is_Some (fsys w !! dir)) then w
  else MkWorld (mkdirs (ancestors dir ++ [dir]) (fsys w))
               (cache w) (stat w) (console w).


(** The directory cannot be ensured: the path does not exist and a
    regular file stands above it. *)
Definition blocked (dir : string) (w : World) : bool :=
  negb (bool_decide (is_Some (fsys w !! dir)))
  && existsb (isFile (fsys w)) (ancestors dir).

End Notions.

(** * Facts about the patterns *)

Module PatternFacts.
Import Pattern.

#[local] Arguments String.append : simpl nomatch.

Lemma sapp_nil_r (s : string) : s +:+ "" = s.
Proof. induction s as [|c s IH]; simpl; [done|by rewrite IH]. Qed.

Lemma sapp_assoc (s t u : string) : (s +:+ t) +:+ u = s +:+ t +:+ u.
Proof. induction s as [|c s IH]; simpl; [done|by rewrite IH]. Qed.

Lemma slength_app (s t : string) :
  String.length (s +:+ t) = String.length s + String.length t.
Proof. induction s as [|c s IH]; simpl; [done|by rewrite IH]. Qed.

Lemma isDollar_true (c : ascii) : isDollar c = true -> c = "$"%char.
Proof. apply Ascii.eqb_eq. Qed.

Lemma dollarFree_app (s t : string) :
  dollarFree (s +:+ t) = dollarFree s && dollarFree t.
Proof.
  induction s as [|c s IH]; simpl; [done|].
  by rewrite IH, andb_assoc.
Qed.

Lemma endsEscaped_app (e : bool) (s t : string) :
  endsEscaped e (s +:+ t) = endsEscaped (endsEscaped e s) t.
Proof. revert e. induction s as [|c s IH]; intros e; simpl; [done|apply IH]. Qed.

Lemma endsEscaped_backslash (e : bool) (u : string) :
  endsEscaped e (u +:+ "\") = true.
Proof. by rewrite endsEscaped_app. Qed.

(** *** What a successful [exec] says about the text *)

Lemma stripDollars_Some (s r : string) :
  stripDollars s = Some r -> s = "$$" +:+ r.
Proof.
  destruct s as [|c1 [|c2 s]]; simpl; try done.
  destruct (isDollar c1) eqn:E1; [|done].
  destruct (isDollar c2) eqn:E2; [|done].
  apply isDollar_true in E1, E2. naive_solver.
Qed.

Lemma lazyUntilDollars_Some (s cap after : string) :
  lazyUntilDollars s = Some (cap, after) -> s = cap +:+ "$$" +:+ after.
Proof.
  revert cap. induction s as [|c s IH]; intros cap; [done|].
  cbn [lazyUntilDollars].
  destruct (stripDollars (String c s)) as [r|] eqn:E.
  - intros [= <- <-]. by apply stripDollars_Some.
  - destruct (lazyUntilDollars s) as [[cap' after']|]; [|done].
    intros [= <- <-]. simpl. by rewrite (IH cap').
Qed.

Lemma matchDisplay_Some (s cap after : string) :
  matchDisplay s = Some (cap, after) -> s = "$$" +:+ cap +:+ "$$" +:+ after.
Proof.
  unfold matchDisplay. destruct (stripDollars s) as [r|] eqn:E; [|done].
  simpl. intros H%lazyUntilDollars_Some. apply stripDollars_Some in E.
  by subst.
Qed.

Lemma execDisplay_Some (s b c a : string) :
  execDisplay s = Some (b, c, a) -> s = b +:+ "$$" +:+ c +:+ "$$" +:+ a.
Proof.
  revert b. induction s as [|x s IH]; intros b.
  - done.
  - cbn [execDisplay].
    destruct (matchDisplay (String x s)) as [[cap after]|] eqn:E.
    + intros [= <- <- <-]. by apply matchDisplay_Some.
    + destruct (execDisplay s) as [[[b' c'] a']|]; [|done].
      intros [= <- <- <-]. simpl. by rewrite (IH b').
Qed.

Lemma untilDollar_Some (s cap after : string) :
  untilDollar s = Some (cap, after) ->
  s = cap +:+ "$" +:+ after /\ dollarFree cap = true.
Proof.
  revert cap. induction s as [|c s IH]; intros cap; [done|].
  simpl. destruct (isDollar c) eqn:E.
  - intros [= <- <-]. apply isDollar_true in E. by subst.
  - destruct (untilDollar s) as [[cap' after']|]; [|done].
    intros [= <- <-]. destruct (IH cap' eq_refl) as [-> ?].
    simpl. by rewrite E.
Qed.

Lemma matchInline_Some (e : bool) (s cap after : string) :
  matchInline e s = Some (cap, after) ->
  s = "$" +:+ cap +:+ "$" +:+ after /\ cap <> "" /\ dollarFree cap = true
  /\ e = false.
Proof.
  unfold matchInline. destruct e; [done|].
  destruct s as [|c s]; [done|].
  destruct (isDollar c) eqn:E; [|done].
  destruct (untilDollar s) as [[[|c1 cap'] after']|] eqn:U; try done.
  intros [= <- <-]. apply untilDollar_Some in U as [-> ?].
  apply isDollar_true in E. by subst.
Qed.

Lemma execInline_Some (e : bool) (s b c a : string) :
  execInline e s = Some (b, c, a) ->
  s = b +:+ "$" +:+ c +:+ "$" +:+ a /\ c <> "" /\ dollarFree c = true
  /\ endsEscaped e b = false.
Proof.
  revert e b. induction s as [|x s IH]; intros e b.
  - simpl. unfold matchInline. by destruct e.
  - cbn [execInline].
    destruct (matchInline e (String x s)) as [[cap after]|] eqn:E.
    + intros [= <- <- <-]. by apply matchInline_Some in E.
    + destruct (execInline (isBackslash x) s) as [[[b' c'] a']|] eqn:X; [|done].
      intros [= <- <- <-]. destruct (IH _ _ X) as (-> & ? & ? & ?).
      by simpl.
Qed.

Lemma source_app (delim : string) (l r : list Piece) :
  source delim (l ++ r) = source delim l +:+ source delim r.
Proof.
  induction l as [|[x|x] l IH]; simpl; [done|..];
    by rewrite IH, ?sapp_assoc.
Qed.

(** *** The replacement loop *)

Section Loop.

Variable exec : string -> option Match.
Variable delim : string.
Hypothesis delim_pos : 0 < String.length delim.
Hypothesis exec_sound : forall s b c a,
  exec s = Some (b, c, a) -> s = b +:+ delim +:+ c +:+ delim +:+ a.

Lemma exec_shrinks (s b c a : string) :
  exec s = Some (b, c, a) -> String.length a < String.length s.
Proof.
  intros ->%exec_sound. rewrite !slength_app. lia.
Qed.

(** The fuel given by the length of the text is never exhausted. *)
Lemma matchAll_fuel (f1 f2 : nat) (s : string) :
  String.length s <= f1 -> String.length s <= f2 ->
  matchAll exec f1 s = matchAll exec f2 s.
Proof.
  revert f2 s. induction f1 as [|f1 IH]; intros f2 s H1 H2.
  - destruct f2 as [|f2]; [done|]. simpl.
    destruct (exec s) as [[[b c] a]|] eqn:E; [|done].
    apply exec_shrinks in E. lia.
  - simpl. destruct (exec s) as [[[b c] a]|] eqn:E.
    + pose proof (exec_shrinks _ _ _ _ E).
      destruct f2 as [|f2]; [lia|]. simpl. rewrite E.
      do 2 f_equal. apply IH; lia.
    + destruct f2; simpl; by rewrite ?E.
Qed.

Lemma matchAll_None (f : nat) (s : string) :
  exec s = None -> matchAll exec f s = [Lit s].
Proof. intros E. destruct f; simpl; by rewrite ?E. Qed.

Lemma matchAll_Some (f : nat) (s b c a : string) :
  String.length s <= f -> exec s = Some (b, c, a) ->
  matchAll exec f s = Lit b :: Span c :: matchAll exec (String.length a) a.
Proof.
  intros Hf E. pose proof (exec_shrinks _ _ _ _ E).
  destruct f as [|f]; [lia|]. simpl. rewrite E.
  do 2 f_equal. apply matchAll_fuel; lia.
Qed.

(** The pieces put together again are the text. *)
Lemma matchAll_source (f : nat) (s : string) :
  source delim (matchAll exec f s) = s.
Proof.
  revert s. induction f as [|f IH]; intros s; simpl.
  - apply sapp_nil_r.
  - destruct (exec s) as [[[b c] a]|] eqn:E; simpl.
    + rewrite IH. symmetry. by apply exec_sound.
    + apply sapp_nil_r.
Qed.

End Loop.

Lemma execDisplay_sound (s b c a : string) :
  execDisplay s = Some (b, c, a) -> s = b +:+ "$$" +:+ c +:+ "$$" +:+ a.
Proof. apply execDisplay_Some. Qed.

Lemma execInline_sound (s b c a : string) :
  execInline false s = Some (b, c, a) -> s = b +:+ "$" +:+ c +:+ "$" +:+ a.
Proof. intros H. by apply execInline_Some in H as [? _]. Qed.

Lemma displayPieces_source (s : string) : source "$$" (displayPieces s) = s.
Proof. apply matchAll_source, execDisplay_sound. Qed.

Lemma inlinePieces_source (s : string) : source "$" (inlinePieces s) = s.
Proof. apply matchAll_source, execInline_sound. Qed.

Lemma displayPieces_None (s : string) :
  execDisplay s = None -> displayPieces s = [Lit s].
Proof. apply matchAll_None. Qed.

Lemma inlinePieces_None (s : string) :
  execInline false s = None -> inlinePieces s = [Lit s].
Proof. apply matchAll_None. Qed.

Lemma displayPieces_Some (s b c a : string) :
  execDisplay s = Some (b, c, a) ->
  displayPieces s = Lit b :: Span c :: displayPieces a.
Proof.
  intros E. unfold displayPieces.
  by apply (matchAll_Some _ "$$"); [simpl; lia|apply execDisplay_sound|..].
Qed.

Lemma inlinePieces_Some (s b c a : string) :
  execInline false s = Some (b, c, a) ->
  inlinePieces s = Lit b :: Span c :: inlinePieces a.
Proof.
  intros E. unfold inlinePieces.
  by apply (matchAll_Some _ "$"); [simpl; lia|apply execInline_sound|..].
Qed.

(** *** Texts without a dollar *)

Lemma stripDollars_plain (c : ascii) (s : string) :
  isDollar c = false -> stripDollars (String c s) = None.
Proof. intros E. simpl. destruct s; [done|]. by rewrite E. Qed.

Lemma execDisplay_prefix (x y : string) :
  dollarFree x = true ->
  execDisplay (x +:+ y) = shiftBy x <$> execDisplay y.
Proof.
  induction x as [|c x IH]; simpl.
  - intros _. by destruct (execDisplay y) as [[[??]?]|].
  - intros [Hc Hx]%andb_prop. apply negb_true_iff in Hc.
    unfold matchDisplay at 1. rewrite (stripDollars_plain _ _ Hc). simpl.
    rewrite (IH Hx). by destruct (execDisplay y) as [[[??]?]|].
Qed.

Lemma execInline_prefix (e : bool) (x y : string) :
  dollarFree x = true ->
  execInline e (x +:+ y) = shiftBy x <$> execInline (endsEscaped e x) y.
Proof.
  revert e. induction x as [|c x IH]; intros e; simpl.
  - intros _. by destruct (execInline e y) as [[[??]?]|].
  - intros [Hc Hx]%andb_prop. apply negb_true_iff in Hc.
    unfold matchInline at 1. rewrite Hc.
    rewrite (IH _ Hx).
    destruct e; by destruct (execInline _ y) as [[[??]?]|].
Qed.

Lemma execDisplay_plain (s : string) :
  dollarFree s = true -> execDisplay s = None.
Proof.
  intros H. rewrite <-(sapp_nil_r s). by rewrite execDisplay_prefix.
Qed.

Lemma execInline_plain (e : bool) (s : string) :
  dollarFree s = true -> execInline e s = None.
Proof.
  intros H. rewrite <-(sapp_nil_r s). rewrite execInline_prefix by done.
  simpl. unfold matchInline. by destruct (endsEscaped e s).
Qed.

Lemma lazyUntilDollars_plain (s after : string) :
  dollarFree s = true ->
  lazyUntilDollars (s +:+ "$$" +:+ after) = Some (s, after).
Proof.
  induction s as [|c s IH].
  - done.
  - simpl dollarFree. intros [Hc Hs]%andb_prop. apply negb_true_iff in Hc.
    change (String c s +:+ "$$" +:+ after)
      with (String c (s +:+ "$$" +:+ after)).
    cbn [lazyUntilDollars].
    rewrite (stripDollars_plain _ _ Hc), (IH Hs). done.
Qed.

Lemma execDisplay_span (pre s post : string) :
  dollarFree pre = true -> dollarFree s = true ->
  execDisplay (pre +:+ "$$" +:+ s +:+ "$$" +:+ post) = Some (pre, s, post).
Proof.
  intros Hpre Hs. rewrite execDisplay_prefix by done.
  assert (execDisplay ("$$" +:+ s +:+ "$$" +:+ post) = Some ("", s, post)) as ->.
  { change ("$$" +:+ s +:+ "$$" +:+ post)
      with (String "$" (String "$" (s +:+ "$$" +:+ post))).
    cbn [execDisplay]. unfold matchDisplay. cbn [stripDollars].
    change (isDollar "$" && isDollar "$") with true. cbn [mbind option_bind].
    by rewrite lazyUntilDollars_plain. }
  simpl. by rewrite sapp_nil_r.
Qed.

Lemma displayPieces_prefix (x y : string) :
  dollarFree x = true ->
  displayPieces (x +:+ y) = prependLit x (displayPieces y).
Proof.
  intros Hx. destruct (execDisplay y) as [[[b c] a]|] eqn:E.
  - rewrite (displayPieces_Some y b c a E).
    apply displayPieces_Some. by rewrite execDisplay_prefix, E.
  - rewrite (displayPieces_None y E).
    apply displayPieces_None. by rewrite execDisplay_prefix, E.
Qed.

Lemma inlinePieces_prefix (x y : string) :
  dollarFree x = true -> endsEscaped false x = false ->
  inlinePieces (x +:+ y) = prependLit x (inlinePieces y).
Proof.
  intros Hx He. destruct (execInline false y) as [[[b c] a]|] eqn:E.
  - rewrite (inlinePieces_Some y b c a E).
    apply inlinePieces_Some. by rewrite execInline_prefix, He, E.
  - rewrite (inlinePieces_None y E).
    apply inlinePieces_None. by rewrite execInline_prefix, He, E.
Qed.

(** *** Where an inline span may start *)

Lemma inline_start_unescaped (f : nat) (s : string)
    (pre : list Piece) (t : string) (post : list Piece) :
  matchAll (execInline false) f s = pre ++ Span t :: post ->
  endsEscaped false (source "$" pre) = false
  /\ t <> "" /\ dollarFree t = true.
Proof.
  revert s pre. induction f as [|f IH]; intros s pre; simpl.
  - destruct pre as [|? [|? ?]]; simpl; intros [=].
  - destruct (execInline false s) as [[[b c] a]|] eqn:E.
    + apply execInline_Some in E as (_ & Hc & Hd & Hb).
      destruct pre as [|p1 [|p2 pre]]; simpl; intros [=]; subst.
      * by rewrite sapp_nil_r.
      * destruct (IH _ _ H2) as (He & ? & ?). split; [|done].
        rewrite endsEscaped_app. simpl. rewrite endsEscaped_app. simpl.
        done.
    + destruct pre as [|? [|? ?]]; simpl; intros [=].
Qed.

End PatternFacts.

(** * Facts about the substitution engine *)

Module DomFacts.
Import Pattern Dom PatternFacts.

#[local] Arguments container : simpl never.
#[local] Arguments displayPieces : simpl never.
#[local] Arguments inlinePieces : simpl never.
#[local] Arguments testDisplay : simpl never.
#[local] Arguments testInline : simpl never.

Lemma join_quiet_l (o : Out) : join quiet o = o.
Proof. by destruct o. Qed.

Lemma join_quiet_r (o : Out) : join o quiet = o.
Proof.
  destruct o as [c u]. unfold join; simpl.
  by rewrite (right_id_L [] (++)), orb_false_r.
Qed.

Lemma join_assoc (a b c : Out) : join (join a b) c = join a (join b c).
Proof. unfold join; simpl. by rewrite <-(assoc_L (++)), orb_assoc. Qed.

Section Engine.

Variable convert : string -> bool -> option string.
Variable parseInner : string -> string -> list Node.

Local Abbreviation processText := (Dom.processText convert parseInner).
Local Abbreviation processMathBlock := (Dom.processMathBlock convert parseInner).
Local Abbreviation processNode := (Dom.processNode convert parseInner).
Local Abbreviation processChildren := (Dom.processChildren convert parseInner).
Local Abbreviation renderDisplay := (Dom.renderDisplay convert).
Local Abbreviation renderInline := (Dom.renderInline convert).

(** *** Unfolding the walk *)

Lemma processNode_Element name attrs cs :
  processNode (Element name attrs cs) =
  if isMathBlock attrs then processMathBlock (Element name attrs cs)
  else if isOpaque name then Some ([Element name attrs cs], quiet)
  else r ← processChildren cs; Some ([Element name attrs r.1], r.2).
Proof.
  simpl. destruct (isMathBlock attrs); [done|].
  destruct (isOpaque name); reflexivity.
Qed.

Lemma processNode_SvgElement name attrs cs :
  processNode (SvgElement name attrs cs) =
  if isOpaque name then Some ([SvgElement name attrs cs], quiet)
  else r ← processChildren cs; Some ([SvgElement name attrs r.1], r.2).
Proof. simpl. destruct (isOpaque name); reflexivity. Qed.

Lemma processChildren_app (l r : list Node) :
  processChildren (l ++ r) =
  r1 ← processChildren l; r2 ← processChildren r;
  Some (r1.1 ++ r2.1, join r1.2 r2.2).
Proof.
  induction l as [|c l IH]; simpl.
  - destruct (processChildren r) as [[??]|]; simpl; [|done].
    by rewrite join_quiet_l.
  - destruct (processNode c) as [[n1 o1]|]; simpl; [|done].
    rewrite IH.
    destruct (processChildren l) as [[n2 o2]|]; simpl; [|done].
    destruct (processChildren r) as [[n3 o3]|]; simpl; [|done].
    by rewrite <-(assoc_L (++)), join_assoc.
Qed.

Lemma processNode_inert_opaque name attrs cs :
  isOpaque name = true -> isMathBlock attrs = false ->
  processNode (Element name attrs cs) = Some ([Element name attrs cs], quiet).
Proof. intros Ho Hm. by rewrite processNode_Element, Hm, Ho. Qed.

(** Two fillers that the walk leaves alone are interchangeable below
    unmarked ancestors. *)
Lemma plug_inert (C : Ctx) (o o' : Node) :
  unmarked C = true ->
  processNode o = Some ([o], quiet) ->
  processNode o' = Some ([o'], quiet) ->
  (processNode (plug C o) = None /\ processNode (plug C o') = None)
  \/ exists C' out, depth C' = depth C
       /\ processNode (plug C o) = Some ([plug C' o], out)
       /\ processNode (plug C o') = Some ([plug C' o'], out).
Proof.
  intros HC Ho Ho'.
  induction C as [|name attrs l C IH r|name attrs l C IH r].
  - right. by exists Hole, quiet.
  - simpl in HC. apply andb_prop in HC as [Hm HC].
    apply negb_true_iff in Hm. simpl plug.
    rewrite !processNode_Element, Hm.
    destruct (isOpaque name).
    { right. by exists (Inside name attrs l C r), quiet. }
    rewrite !processChildren_app. simpl.
    destruct (processChildren l) as [[n1 o1]|]; simpl; [|by left].
    destruct (IH HC) as [[-> ->]|(C' & out & HD & -> & ->)]; simpl; [by left|].
    destruct (processChildren r) as [[n3 o3]|]; simpl; [|by left].
    right. exists (Inside name attrs n1 C' n3), (join o1 (join out o3)).
    simpl. by rewrite HD.
  - simpl in HC. simpl plug. rewrite !processNode_SvgElement.
    destruct (isOpaque name).
    { right. by exists (InsideSvg name attrs l C r), quiet. }
    rewrite !processChildren_app. simpl.
    destruct (processChildren l) as [[n1 o1]|]; simpl; [|by left].
    destruct (IH HC) as [[-> ->]|(C' & out & HD & -> & ->)]; simpl; [by left|].
    destruct (processChildren r) as [[n3 o3]|]; simpl; [|by left].
    right. exists (InsideSvg name attrs n1 C' n3), (join o1 (join out o3)).
    simpl. by rewrite HD.
Qed.

(** *** The text-node branch on particular shapes of text *)

Lemma processText_span (pre s post svg : string) :
  dollarFree pre = true -> dollarFree s = true -> dollarFree post = true ->
  convert s true = Some svg -> dollarFree svg = true ->
  processText (pre +:+ "$$" +:+ s +:+ "$$" +:+ post) =
  Some (parseInner "div" (pre +:+ container svg +:+ post),
        MkOut [MkCall s true] true).
Proof.
  intros Hpre Hs Hpost Hc Hsvg. unfold Dom.processText.
  pose proof (execDisplay_span pre s post Hpre Hs) as E.
  unfold testDisplay. rewrite E, bool_decide_true by eauto. simpl.
  rewrite (displayPieces_Some _ _ _ _ E).
  rewrite (displayPieces_None post) by by apply execDisplay_plain.
  simpl. unfold Dom.renderDisplay. rewrite Hc. simpl.
  rewrite !sapp_nil_r.
  assert (dollarFree (pre +:+ container svg +:+ post) = true) as Hfree.
  { unfold container. rewrite !dollarFree_app, Hpre, Hsvg, Hpost. done. }
  rewrite (inlinePieces_None _ (execInline_plain false _ Hfree)).
  simpl. by rewrite sapp_nil_r.
Qed.

Lemma processText_example_display (svg : string) :
  convert "a+b" true = Some svg -> dollarFree svg = true ->
  processText "$$a+b$$ and $c$" =
  svg' ← convert "c" false;
  Some (parseInner "div" (container svg +:+ " and " +:+ svg'),
        MkOut [MkCall "a+b" true; MkCall "c" false] true).
Proof.
  intros Hc Hsvg. unfold Dom.processText.
  change (testDisplay "$$a+b$$ and $c$") with true. simpl orb. cbv iota.
  change (displayPieces "$$a+b$$ and $c$")
    with [Lit ""; Span "a+b"; Lit " and $c$"].
  simpl. unfold Dom.renderDisplay at 1. rewrite Hc.
  cbn [mbind option_bind fmap option_fmap option_map].
  rewrite sapp_nil_r. change ("" +:+ ?x) with x.
  assert (inlinePieces (container svg +:+ " and $c$")
          = [Lit (container svg +:+ " and "); Span "c"; Lit ""]) as ->.
  { change " and $c$" with (" and " +:+ "$c$").
    rewrite <-sapp_assoc, inlinePieces_prefix.
    - change (inlinePieces "$c$") with [Lit ""; Span "c"; Lit ""].
      cbn [prependLit]. by rewrite sapp_nil_r.
    - unfold container. by rewrite !dollarFree_app, Hsvg.
    - unfold container. by rewrite !endsEscaped_app. }
  cbn [replaceWith callsOf spans fmap list_fmap]. unfold Dom.renderInline.
  destruct (convert "c" false) as [svg'|]; [|done].
  cbn [mbind option_bind]. by rewrite sapp_nil_r, sapp_assoc.
Qed.

Lemma processText_calls (text : string) :
  match processText text with
  | Some (_, out) =>
      exists rest, calls out = callsOf true (displayPieces text) ++ rest
        /\ forallb (fun c => negb (displayMode c)) rest = true
  | None => True
  end.
Proof.
  unfold Dom.processText.
  destruct (testDisplay text || testInline text) eqn:T.
  - destruct (replaceWith _ (displayPieces text)) as [text1|]; simpl; [|done].
    destruct (replaceWith _ (inlinePieces text1)); simpl; [|done].
    eexists; split; [done|]. unfold callsOf.
    induction (spans (inlinePieces text1)); simpl; auto.
  - exists []. simpl. split; [|done]. rewrite (right_id_L [] (++)).
    apply orb_false_elim in T as [T _]. unfold testDisplay in T.
    apply bool_decide_eq_false in T.
    rewrite displayPieces_None; [done|].
    destruct (execDisplay text); [|done]. destruct T; eauto.
Qed.

(** *** The flag is set exactly when a substitution is made *)

Lemma Node_induction (P : Node -> Prop) :
  (forall d, P (Text d)) -> (forall d, P (Comment d)) ->
  (forall name attrs cs, Forall P cs -> P (Element name attrs cs)) ->
  (forall name attrs cs, Forall P cs -> P (SvgElement name attrs cs)) ->
  forall n, P n.
Proof.
  intros Ht Hc He Hs. fix IH 1. intros [d|d|name attrs cs|name attrs cs].
  - apply Ht.
  - apply Hc.
  - apply He. induction cs as [|c cs IHcs]; constructor; [apply IH|exact IHcs].
  - apply Hs. induction cs as [|c cs IHcs]; constructor; [apply IH|exact IHcs].
Qed.




End Engine.

(** C4. Within a text node the display pattern is substituted first:
    the display calls come first and are exactly the display matches of
    the node's text, every later call is inline; a dollar-free text
    between a double-dollar pair is one display render and nothing else;
    and the text [$$a+b$$ and $c$] gives one display render of [a+b]
    followed by one inline render of [c].  The markup the typesetter
    returns for the display spans is taken to hold no dollar. *)
Theorem display_before_inline
    (convert : string -> bool -> option string)
    (parseInner : string -> string -> list Node)
    (text pre s post svgS svgAB : string) :
  dollarFree pre = true -> dollarFree s = true -> dollarFree post = true ->
  convert s true = Some svgS -> dollarFree svgS = true ->
  convert "a+b" true = Some svgAB -> dollarFree svgAB = true ->
  match processText convert parseInner text with
  | Some (_, out) =>
      exists rest, calls out = callsOf true (displayPieces text) ++ rest
        /\ forallb (fun c => negb (displayMode c)) rest = true
  | None => True
  end
  /\ processText convert parseInner (pre +:+ "$$" +:+ s +:+ "$$" +:+ post)
     = Some (parseInner "div" (pre +:+ container svgS +:+ post),
             MkOut [MkCall s true] true)
  /\ processText convert parseInner "$$a+b$$ and $c$"
     = (svg' ← convert "c" false;
        Some (parseInner "div" (container svgAB +:+ " and " +:+ svg'),
              MkOut [MkCall "a+b" true; MkCall "c" false] true)).
Proof.
  intros. split; [apply processText_calls|].
  split; [by apply processText_span|by apply processText_example_display].
Qed.

Lemma display_before_inline_witness :
  processText Sample.convert Sample.parseInner "$$a+b$$ and $c$"
  = Some (Sample.parseInner "div"
            (container "<svg>a+b</svg>" +:+ " and " +:+ "<svg>c</svg>"),
          MkOut [MkCall "a+b" true; MkCall "c" false] true)
  /\ processText Sample.convert Sample.parseInner "see $$x^2$$ here"
     = Some (Sample.parseInner "div"
               ("see " +:+ container "<svg>x^2</svg>" +:+ " here"),
             MkOut [MkCall "x^2" true] true).
Proof.
  destruct (display_before_inline Sample.convert Sample.parseInner
              "$$a+b$$ and $c$" "see " "x^2" " here"
              "<svg>x^2</svg>" "<svg>a+b</svg>"
              eq_refl eq_refl eq_refl eq_refl eq_refl eq_refl eq_refl)
    as (_ & H2 & H3).
  split; [exact H3|exact H2].
Defined.

(** The assumption on the markup is needed: the inline pattern scans
    the text after the display substitution, markup included, so a
    typesetter whose display markup held dollars would see them taken
    for inline delimiters. *)
Example display_markup_is_scanned :
  processText (fun t d => Some (if d then "<i>$" else "k")) Sample.parseInner
    "$$a$$ and $$b$$"
  = Some (Sample.parseInner "div" (openContainer +:+ "<i>k"
                                   +:+ closeContainer),
          MkOut [MkCall "a" true; MkCall "b" true;
                 MkCall (closeContainer +:+ " and " +:+ openContainer
                         +:+ "<i>") false] true).
Proof. vm_compute. reflexivity. Qed.

(** C5. Whatever text the inline pattern scans, a span it finds starts
    at a dollar that is not right after a backslash: the text before the
    span does not end with a backslash (the span itself is the dollar,
    a non-empty dollar-free capture and a dollar).  The text
    [price is \$5 and $x$] gives exactly one inline render, of [x], and
    [price is \$5 and ] stays as it is. *)
Theorem escaped_dollar_never_opens_inline
    (convert : string -> bool -> option string)
    (parseInner : string -> string -> list Node)
    (scanned : string) (pre : list Piece) (t : string) (post : list Piece) :
  inlinePieces scanned = pre ++ Span t :: post ->
  scanned = source "$" pre +:+ "$" +:+ t +:+ "$" +:+ source "$" post
  /\ (forall u, source "$" pre <> u +:+ "\")
  /\ t <> "" /\ dollarFree t = true
  /\ processText convert parseInner "price is \$5 and $x$"
     = (svg ← convert "x" false;
        Some (parseInner "div" ("price is \$5 and " +:+ svg),
              MkOut [MkCall "x" false] true)).
Proof.
  intros H. pose proof (inlinePieces_source scanned) as Hs.
  rewrite H in Hs.
  apply inline_start_unescaped in H as (He & Ht & Hd).
  split.
  { by rewrite <-Hs, source_app. }
  split.
  { intros u Hu. rewrite Hu, endsEscaped_backslash in He. done. }
  do 2 (split; [done|]).
  unfold Dom.processText.
  change (testDisplay "price is \$5 and $x$") with false.
  change (testInline "price is \$5 and $x$") with true. simpl orb. cbv iota.
  change (displayPieces "price is \$5 and $x$")
    with [Lit "price is \$5 and $x$"].
  simpl replaceWith. simpl mbind.
  change (inlinePieces "price is \$5 and $x$")
    with [Lit "price is \$5 and "; Span "x"; Lit ""].
  simpl. unfold Dom.renderInline.
  destruct (convert "x" false); simpl; [|done]. by rewrite sapp_nil_r.
Qed.

Lemma escaped_dollar_never_opens_inline_witness :
  "\$5 and $x$" = "\$5 and " +:+ "$" +:+ "x" +:+ "$" +:+ ""
  /\ processText Sample.convert Sample.parseInner "price is \$5 and $x$"
     = Some (Sample.parseInner "div" "price is \$5 and <svg>x</svg>",
             MkOut [MkCall "x" false] true).
Proof.
  destruct (escaped_dollar_never_opens_inline Sample.convert
              Sample.parseInner "\$5 and $x$" [Lit "\$5 and "] "x" [Lit ""]
              eq_refl) as (H1 & _ & _ & _ & H5).
  split; [exact H1|exact H5].
Defined.

(** The guard is on the opening dollar only: an escaped dollar can
    still close a span that an unescaped one opened. *)
Example escaped_dollar_may_close :
  inlinePieces "$a\$b$" = [Lit ""; Span "a\"; Lit "b$"].
Proof. reflexivity. Qed.

(** C6, as the code has it.  A script, code or pre element that does not
    carry the math-block class, below ancestors none of which carries
    it, is never entered, at any depth: the walk gives back the tree it
    would give for the same element emptied, with the element standing
    unchanged at the same depth, and makes the same calls (or fails the
    same way, on a notation outside the element). *)
Theorem opaque_subtree_untouched
    (convert : string -> bool -> option string)
    (parseInner : string -> string -> list Node)
    (C : Ctx) (name : string) (attrs : list (string * string))
    (cs : list Node) :
  unmarked C = true -> isOpaque name = true -> isMathBlock attrs = false ->
  match processNode convert parseInner (plug C (Element name attrs cs)) with
  | Some (r, out) =>
      exists C', depth C' = depth C
        /\ r = [plug C' (Element name attrs cs)]
        /\ processNode convert parseInner (plug C (Element name attrs []))
           = Some ([plug C' (Element name attrs [])], out)
  | None =>
      processNode convert parseInner (plug C (Element name attrs [])) = None
  end.
Proof.
  intros HC Ho Hm.
  destruct (plug_inert convert parseInner C
              (Element name attrs cs) (Element name attrs []) HC)
    as [[-> ->]|(C' & out & HD & -> & ->)];
    try by apply processNode_inert_opaque.
  - done.
  - by exists C'.
Qed.

Lemma opaque_subtree_untouched_witness :
  let C := Inside "BODY" [] [Text "$a$"]
             (Inside "DIV" [] [] Hole []) [Text "$$b$$"] in
  let cs := [Text "$$x$$ and $y$"] in
  (unmarked C = true /\ isOpaque "PRE" = true /\ isMathBlock [] = false)
  /\ match processNode Sample.convert Sample.parseInner
             (plug C (Element "PRE" [] cs)) with
     | Some (r, out) =>
         exists C', depth C' = depth C
           /\ r = [plug C' (Element "PRE" [] cs)]
           /\ processNode Sample.convert Sample.parseInner
                (plug C (Element "PRE" [] []))
              = Some ([plug C' (Element "PRE" [] [])], out)
     | None =>
         processNode Sample.convert Sample.parseInner
           (plug C (Element "PRE" [] [])) = None
     end.
Proof.
  intros C cs. split; [done|].
  apply (opaque_subtree_untouched Sample.convert Sample.parseInner C
           "PRE" [] cs); reflexivity.
Defined.

(** C6 as written fails where the element carries the math-block class
    itself, and where it lies inside an element that does: its text is
    rendered and it is gone from the tree. *)
Lemma marked_opaque_element_is_rendered :
  isOpaque "PRE" = true
  /\ processNode Sample.convert Sample.parseInner
       (Element "BODY" []
          [Element "PRE" [("class", "latex-block")] [Text "$x$"]])
     = Some ([Element "BODY" []
                (Sample.parseInner "div" (container "<svg>$x$</svg>"))],
             MkOut [MkCall "$x$" true] true)
  /\ isOpaque "CODE" = true
  /\ processNode Sample.convert Sample.parseInner
       (Element "BODY" []
          [Element "DIV" [("class", "latex-block")]
             [Text "E="; Element "CODE" [] [Text "mc^2"]]])
     = Some ([Element "BODY" []
                (Sample.parseInner "div" (container "<svg>E=mc^2</svg>"))],
             MkOut [MkCall "E=mc^2" true] true).
Proof. repeat split; vm_compute; reflexivity. Qed.

(** C7. An element the walk visits whose [className] is the math-block
    marker and nothing else, so not an SVG element, has its whole text
    content, the data of all its text descendants in document order,
    comments left out, passed to the typesetter once, in display mode,
    and no pattern is applied to that text.  The element is replaced by
    what the [mjx-container] markup around the typesetter's output
    parses to; when the typesetter throws, so does the walk. *)
Theorem math_block_rendered_whole
    (convert : string -> bool -> option string)
    (parseInner : string -> string -> list Node)
    (name : string) (attrs : list (string * string)) (cs : list Node) :
  className attrs = "latex-block" ->
  textContent (Element name attrs cs) = String.concat "" (descendantText <$> cs)
  /\ (forall d, descendantText (Text d) = d /\ descendantText (Comment d) = "")
  /\ processNode convert parseInner (Element name attrs cs)
     = match convert (String.concat "" (descendantText <$> cs)) true with
       | Some svg =>
           Some (parseInner "div"
                   ("<mjx-container display="
                    +:+ String "034" ("true"
                    +:+ String "034" (" style="
                    +:+ String "034"
                          ("display: block; text-align: center; margin: 1em 0;"
                    +:+ String "034" (">" +:+ svg +:+ "</mjx-container>"))))),
                 MkOut [MkCall (String.concat "" (descendantText <$> cs)) true]
                       true)
       | None => None
       end.
Proof.
  intros Hc.
  assert (textContent (Element name attrs cs)
          = String.concat "" (descendantText <$> cs)) as Ht.
  { simpl. induction cs as [|c cs IH]; [done|].
    simpl. destruct cs; [|by rewrite IH].
    simpl. apply sapp_nil_r. }
  split; [exact Ht|]. split; [done|].
  rewrite processNode_Element. unfold isMathBlock. rewrite Hc.
  change ("latex-block" =? "latex-block")%string with true. cbv iota.
  unfold processMathBlock. rewrite Ht.
  by destruct (convert _ true).
Qed.

Lemma math_block_rendered_whole_witness :
  processNode Sample.convert Sample.parseInner
    (Element "DIV" [("class", "latex-block")]
       [Text "$$a$$ "; Comment "$c$"; Element "B" [] [Text "$b$"]])
  = Some (Sample.parseInner "div"
            ("<mjx-container display="
             +:+ String "034" ("true"
             +:+ String "034" (" style="
             +:+ String "034"
                   ("display: block; text-align: center; margin: 1em 0;"
             +:+ String "034" (">" +:+ "<svg>$$a$$ $b$</svg>"
                               +:+ "</mjx-container>"))))),
          MkOut [MkCall "$$a$$ $b$" true] true).
Proof.
  exact (proj2 (proj2
    (math_block_rendered_whole Sample.convert Sample.parseInner
       "DIV" [("class", "latex-block")]
       [Text "$$a$$ "; Comment "$c$"; Element "B" [] [Text "$b$"]] eq_refl))).
Defined.

(** The marker has to be the whole [className] string, and the element
    has to be reached.  An element that carries the marker next to
    another class is walked like any other element, the inline pattern
    applied to its text; so is an SVG element whose class attribute is
    the marker, its [className] being no string; and a marked element
    below an opaque one is left as it is. *)
Lemma marker_among_classes_is_not_a_block :
  processNode Sample.convert Sample.parseInner
    (Element "DIV" [("class", "latex-block wide")] [Text "$x$"])
  = Some ([Element "DIV" [("class", "latex-block wide")]
             (Sample.parseInner "div" "<svg>x</svg>")],
          MkOut [MkCall "x" false] true)
  /\ processNode Sample.convert Sample.parseInner
       (SvgElement "text" [("class", "latex-block")] [Text "$x$"])
     = Some ([SvgElement "text" [("class", "latex-block")]
                (Sample.parseInner "div" "<svg>x</svg>")],
             MkOut [MkCall "x" false] true)
  /\ processNode Sample.convert Sample.parseInner
       (Element "PRE" []
          [Element "DIV" [("class", "latex-block")] [Text "x^2"]])
     = Some ([Element "PRE" []
                [Element "DIV" [("class", "latex-block")] [Text "x^2"]]],
             quiet).
Proof. repeat split; vm_compute; reflexivity. Qed.

(** C10. The marker is tested before the tag: a SCRIPT, CODE or PRE
    element whose class is the math-block marker is rendered as a
    display block like any other marked element, whereas the same
    element without the marker is left alone. *)
Theorem marker_precedes_opaque_check
    (convert : string -> bool -> option string)
    (parseInner : string -> string -> list Node)
    (name : string) (attrs attrs' : list (string * string))
    (cs : list Node) (svg : string) :
  name = "SCRIPT" \/ name = "CODE" \/ name = "PRE" ->
  className attrs = "latex-block" ->
  className attrs' <> "latex-block" ->
  convert (textContent (Element name attrs cs)) true = Some svg ->
  processNode convert parseInner (Element name attrs cs)
  = Some (parseInner "div" (container svg),
          MkOut [MkCall (textContent (Element name attrs cs)) true] true)
  /\ processNode convert parseInner (Element name attrs' cs)
     = Some ([Element name attrs' cs], quiet).
Proof.
  intros Hn Hc Hc' Hsvg. split.
  - rewrite processNode_Element. unfold isMathBlock. rewrite Hc. simpl.
    unfold Dom.processMathBlock. by rewrite Hsvg.
  - apply processNode_inert_opaque.
    + by destruct Hn as [->|[->| ->]].
    + unfold isMathBlock. by apply String.eqb_neq.
Qed.

Lemma marker_precedes_opaque_check_witness :
  processNode Sample.convert Sample.parseInner
    (Element "PRE" [("class", "latex-block")] [Text "x^2"])
  = Some (Sample.parseInner "div" (container "<svg>x^2</svg>"),
          MkOut [MkCall "x^2" true] true)
  /\ processNode Sample.convert Sample.parseInner
       (Element "PRE" [("class", "src")] [Text "x^2"])
     = Some ([Element "PRE" [("class", "src")] [Text "x^2"]], quiet).
Proof.
  apply (marker_precedes_opaque_check Sample.convert Sample.parseInner
           "PRE" [("class", "latex-block")] [("class", "src")]
           [Text "x^2"] "<svg>x^2</svg>").
  - right; right; reflexivity.
  - reflexivity.
  - discriminate.
  - reflexivity.
Defined.

End DomFacts.

(** * Facts about the driver *)

Module PipelineFacts.
Import Pattern Dom Pipeline.

Lemma bind_Ok {A B} (m : M A) (k : A -> M B) (w w1 : World) (a : A) :
  m w = Ok a w1 -> bind m k w = k a w1.
Proof. unfold bind. by intros ->. Qed.

Lemma bind_Throw {A B} (m : M A) (k : A -> M B) (w w1 : World) (e : Error) :
  m w = Throw e w1 -> bind m k w = Throw e w1.
Proof. unfold bind. by intros ->. Qed.

Lemma bind_Ok_inv {A B} (m : M A) (k : A -> M B) (w w' : World) (b : B) :
  bind m k w = Ok b w' -> exists a w1, m w = Ok a w1 /\ k a w1 = Ok b w'.
Proof. unfold bind. destruct (m w) as [a w1|]; [eauto|done]. Qed.

Lemma bind_assoc {A B C} (m : M A) (k : A -> M B) (h : B -> M C) (w : World) :
  bind (bind m k) h w = bind m (fun a => bind (k a) h) w.
Proof. unfold bind. by destruct (m w). Qed.

(** *** Relations a statement preserves *)

Section Preserves.

Context {A B : Type} (R : World -> World -> Prop).

Lemma preserves_ret (a : A) : Reflexive R -> preserves R (ret a).
Proof. intros HR w. simpl. done. Qed.

Lemma preserves_throw (e : Error) :
  Reflexive R -> preserves R (throw (A := A) e).
Proof. intros HR w. simpl. done. Qed.

Lemma preserves_bind (m : M A) (k : A -> M B) :
  preserves R m -> (forall a, preserves R (k a)) -> Transitive R ->
  preserves R (bind m k).
Proof.
  intros Hm Hk HR w. unfold bind. specialize (Hm w).
  destruct (m w) as [a w1|e w1]; simpl in *; [|done].
  etrans; [exact Hm|apply Hk].
Qed.

Lemma preserves_if (c : bool) (m1 m2 : M A) :
  preserves R m1 -> preserves R m2 -> preserves R (if c then m1 else m2).
Proof. by destruct c. Qed.

End Preserves.

Global Instance keepsEntry_preorder (p : string) : PreOrder (keepsEntry p).
Proof. split; unfold keepsEntry; [intros ?|intros ???]; naive_solver. Qed.

Global Instance keepsCache_preorder : PreOrder keepsCache.
Proof. split; unfold keepsCache; [intros ?|intros ???]; congruence. Qed.

Global Instance keepsCacheBut_preorder (q : string) : PreOrder (keepsCacheBut q).
Proof.
  split; unfold keepsCacheBut; [by intros ?|intros x y z H1 H2 p Hp].
  by rewrite H2, H1.
Qed.

Lemma keepsCache_But (q : string) (w w' : World) :
  keepsCache w w' -> keepsCacheBut q w w'.
Proof. unfold keepsCache, keepsCacheBut. by intros ->. Qed.

(** The primitives that only read. *)
Lemma statSync_same (R : World -> World -> Prop) `{!Reflexive R} path :
  preserves R (statSync path).
Proof. intros w. unfold statSync. by case_match. Qed.

Lemma existsSync_same (R : World -> World -> Prop) `{!Reflexive R} path :
  preserves R (existsSync path).
Proof. by intros w. Qed.

Lemma readFileSync_same (R : World -> World -> Prop) `{!Reflexive R} path :
  preserves R (readFileSync path).
Proof. intros w. unfold readFileSync. by repeat case_match. Qed.

Lemma getCache_same (R : World -> World -> Prop) `{!Reflexive R} :
  preserves R getCache.
Proof. by intros w. Qed.

Lemma getStat_same (R : World -> World -> Prop) `{!Reflexive R} :
  preserves R getStat.
Proof. by intros w. Qed.

(** The primitives that leave the disk alone. *)
Lemma log_keepsEntry p msg : preserves (keepsEntry p) (log msg).
Proof. by intros w e He. Qed.

Lemma setStat_keepsEntry p f : preserves (keepsEntry p) (setStat f).
Proof. by intros w e He. Qed.

Lemma setCache_keepsEntry p f : preserves (keepsEntry p) (setCache f).
Proof. by intros w e He. Qed.

(** The primitives that leave the cache alone. *)
Lemma log_keepsCache msg : preserves keepsCache (log msg).
Proof. by intros w. Qed.

Lemma setStat_keepsCache f : preserves keepsCache (setStat f).
Proof. by intros w. Qed.

Lemma mkdirSync_keepsCache path : preserves keepsCache (mkdirSync path).
Proof. intros w. unfold mkdirSync. by repeat case_match. Qed.

Lemma writeFileSync_keepsCache path data :
  preserves keepsCache (writeFileSync path data).
Proof. intros w. unfold writeFileSync. by repeat case_match. Qed.

(** Writing and creating directories never disturb another path, and
    [ensureDir] never disturbs a path that exists. *)
Lemma writeFileSync_keepsEntry p path data :
  path <> p -> preserves (keepsEntry p) (writeFileSync path data).
Proof.
  intros Hne w e He. unfold writeFileSync.
  repeat case_match; simpl; try done; by rewrite lookup_insert_ne.
Qed.

Lemma mkdirs_subseteq (paths : list string) (disk : gmap string Entry) :
  disk ⊆ mkdirs paths disk.
Proof.
  revert disk. induction paths as [|q paths IH]; intros disk; simpl; [done|].
  etrans; [|apply IH]. destruct (disk !! q) eqn:E; [done|].
  by apply insert_subseteq.
Qed.

Lemma mkdirs_lookup (paths : list string) (disk : gmap string Entry) p e :
  disk !! p = Some e -> mkdirs paths disk !! p = Some e.
Proof. intros H. by apply (lookup_weaken _ _ _ _ H), mkdirs_subseteq. Qed.

Lemma mkdirSync_keepsEntry p path : preserves (keepsEntry p) (mkdirSync path).
Proof.
  intros w e He. unfold mkdirSync.
  repeat case_match; simpl; try done. by apply mkdirs_lookup.
Qed.

Lemma ensureDir_keepsEntry p dir : preserves (keepsEntry p) (ensureDir dir).
Proof.
  intros w e He. unfold ensureDir, bind, existsSync.
  case_bool_decide as Hex; simpl; [done|]. by apply mkdirSync_keepsEntry.
Qed.

Ltac frame :=
  repeat lazymatch goal with
    | |- preserves _ (bind _ _) => apply preserves_bind; [|intros ?|apply _]
    | |- preserves _ (if _ then _ else _) =>
        first [apply preserves_if|progress case_match]
    | |- preserves _ (ret _) => apply preserves_ret; apply _
    | |- preserves _ (throw _) => apply preserves_throw; apply _
    | |- preserves _ (statSync _) => apply statSync_same; apply _
    | |- preserves _ (existsSync _) => apply existsSync_same; apply _
    | |- preserves _ (readFileSync _) => apply readFileSync_same; apply _
    | |- preserves _ getCache => apply getCache_same; apply _
    | |- preserves _ getStat => apply getStat_same; apply _
    | |- preserves (keepsEntry _) (log _) => apply log_keepsEntry
    | |- preserves (keepsEntry _) (setStat _) => apply setStat_keepsEntry
    | |- preserves (keepsEntry _) (setCache _) => apply setCache_keepsEntry
    | |- preserves (keepsEntry _) (ensureDir _) => apply ensureDir_keepsEntry
    | |- preserves (keepsEntry _) (writeFileSync _ _) =>
        apply writeFileSync_keepsEntry; done
    | |- preserves keepsCache (log _) => apply log_keepsCache
    | |- preserves keepsCache (setStat _) => apply setStat_keepsCache
    | |- preserves keepsCache (mkdirSync _) => apply mkdirSync_keepsCache
    | |- preserves keepsCache (writeFileSync _ _) =>
        apply writeFileSync_keepsCache
    | |- preserves _ _ => progress case_match
    end.

Lemma copyFileSync_keepsEntry p src dest :
  dest <> p -> preserves (keepsEntry p) (copyFileSync src dest).
Proof. intros Hne. unfold copyFileSync. frame. Qed.

Lemma copyFileSync_keepsCache src dest :
  preserves keepsCache (copyFileSync src dest).
Proof. unfold copyFileSync. frame. Qed.

Lemma ensureDir_keepsCache dir : preserves keepsCache (ensureDir dir).
Proof. unfold ensureDir. frame. Qed.

Section Program.

Variable convert : string -> bool -> option string.
Variable parseInner : string -> string -> list Node.
Variable parseDocument : string -> Document.
Variable serialize : Document -> list Node -> list Node -> string.
Variable styleSheet : string.
Variable md5hex : string -> string.
Variable dirname : string -> string.
Variable JSON_stringify : gmap string string -> string.
Variable JSON_parse : string -> option (gmap string string).

Local Abbreviation styleTag := (Pipeline.styleTag parseInner styleSheet).
Local Abbreviation isSrcNotChanged := (Pipeline.isSrcNotChanged md5hex).
Local Abbreviation processHtml :=
  (Pipeline.processHtml convert parseInner parseDocument serialize styleSheet).
Local Abbreviation process :=
  (Pipeline.process convert parseInner parseDocument serialize styleSheet
     md5hex dirname).
Local Abbreviation reprocess :=
  (Pipeline.reprocess convert parseInner parseDocument serialize styleSheet
     dirname).
Local Abbreviation loadCache := (Pipeline.loadCache JSON_parse).
Local Abbreviation saveCache := (Pipeline.saveCache JSON_stringify).
Local Abbreviation prologue := (Pipeline.prologue JSON_parse).
Local Abbreviation epilogue := (Pipeline.epilogue JSON_stringify).
Local Abbreviation main :=
  (Pipeline.main convert parseInner parseDocument serialize styleSheet
     md5hex dirname JSON_stringify JSON_parse).
Local Abbreviation run :=
  (Pipeline.run convert parseInner parseDocument serialize styleSheet
     md5hex dirname JSON_stringify JSON_parse).

(** *** What each function may touch *)

Lemma processHtml_keepsEntry p src tgt :
  tgt <> p -> preserves (keepsEntry p) (processHtml src tgt).
Proof.
  intros Hne. unfold Pipeline.processHtml. frame.
  by apply copyFileSync_keepsEntry.
Qed.

Lemma processHtml_keepsCache src tgt :
  preserves keepsCache (processHtml src tgt).
Proof. unfold Pipeline.processHtml. frame. apply copyFileSync_keepsCache. Qed.

Lemma reprocess_keepsEntry p q :
  getTargetPathFrom q <> p -> preserves (keepsEntry p) (reprocess q).
Proof.
  intros Hne. unfold Pipeline.reprocess. frame.
  - by apply processHtml_keepsEntry.
  - by apply copyFileSync_keepsEntry.
Qed.

Lemma reprocess_keepsCache q : preserves keepsCache (reprocess q).
Proof.
  unfold Pipeline.reprocess. frame.
  - apply ensureDir_keepsCache.
  - apply processHtml_keepsCache.
  - apply copyFileSync_keepsCache.
Qed.

Lemma preserves_weaken {A} (R R' : World -> World -> Prop) (m : M A) :
  (forall w w', R w w' -> R' w w') -> preserves R m -> preserves R' m.
Proof. intros HR Hm w. apply HR, Hm. Qed.

Lemma isSrcNotChanged_keepsEntry p src :
  preserves (keepsEntry p) (isSrcNotChanged src).
Proof. unfold Pipeline.isSrcNotChanged, md5. frame. Qed.

Lemma isSrcNotChanged_keepsCacheBut src :
  preserves (keepsCacheBut src) (isSrcNotChanged src).
Proof.
  unfold Pipeline.isSrcNotChanged, md5. frame.
  intros w q Hq. simpl. by rewrite lookup_insert_ne.
Qed.

Lemma process_keepsEntry p q :
  getTargetPathFrom q <> p -> preserves (keepsEntry p) (process q).
Proof.
  intros Hne. unfold Pipeline.process. frame.
  - apply isSrcNotChanged_keepsEntry.
  - by apply processHtml_keepsEntry.
  - by apply copyFileSync_keepsEntry.
Qed.

Lemma process_keepsCacheBut q : preserves (keepsCacheBut q) (process q).
Proof.
  unfold Pipeline.process. frame;
    try apply isSrcNotChanged_keepsCacheBut;
    apply (preserves_weaken keepsCache); try apply keepsCache_But; frame.
  - apply ensureDir_keepsCache.
  - apply ensureDir_keepsCache.
  - apply processHtml_keepsCache.
  - apply copyFileSync_keepsCache.
Qed.

(** *** Sources and targets *)

Lemma prefix_split (a q : string) :
  String.prefix a q = true -> exists x, q = a +:+ x.
Proof.
  revert q. induction a as [|c a IH]; intros q; simpl.
  - intros _. by exists q.
  - destruct q as [|d q]; [done|]. simpl.
    destruct (Ascii.ascii_dec c d) as [->|]; [|done].
    intros [x ->]%IH. by exists x.
Qed.

Lemma target_of_source (name : string) :
  getTargetPathFrom (sourceRoot +:+ name)
  = blogRoot +:+ "/" +:+ targetDir +:+ "/" +:+ name.
Proof. reflexivity. Qed.

(** The target of an enumerated path is never an enumerated path. *)
Lemma target_not_source (q p : string) :
  underSource q = true -> underSource p = true -> getTargetPathFrom q <> p.
Proof.
  intros [x ->]%prefix_split [y ->]%prefix_split.
  rewrite target_of_source. intros H. cbv in H. discriminate H.
Qed.

(** *** The change cache *)

Lemma withFingerprint_same (p h : string) (w : World) :
  cache w !! p = Some h -> withFingerprint p h w = w.
Proof.
  intros H. destruct w as [d c s l]. unfold withFingerprint; simpl in *.
  by rewrite insert_id.
Qed.

Lemma isSrcNotChanged_spec (w : World) (src content : string) :
  fsys w !! src = Some (File true content) ->
  isSrcNotChanged src w =
  Ok (bool_decide (cache w !! src = Some (md5hex content)))
     (withFingerprint src (md5hex content) w).
Proof.
  intros Hf. unfold Pipeline.isSrcNotChanged, md5, bind, readFileSync.
  rewrite Hf. simpl. case_bool_decide as Hc; simpl.
  - by rewrite withFingerprint_same.
  - done.
Qed.

Lemma process_file (w : World) (p content : string) :
  fsys w !! p = Some (File true content) ->
  endsWith p ".md5" = false ->
  process p w =
  if bool_decide (cache w !! p = Some (md5hex content))
  then Ok tt (skippedIn w)
  else reprocess p (withFingerprint p (md5hex content) w).
Proof.
  intros Hf Hs. unfold Pipeline.process.
  rewrite (bind_Ok _ _ w w (File true content)).
  2:{ unfold statSync. by rewrite Hf. }
  rewrite Hs.
  rewrite (bind_Ok _ _ _ _ _ (isSrcNotChanged_spec w p content Hf)).
  case_bool_decide as Hc.
  - by rewrite withFingerprint_same.
  - done.
Qed.

(** *** The loop *)

Lemma forEach_app (f : string -> M unit) (l r : list string) (w : World) :
  forEach f (l ++ r) w = bind (forEach f l) (fun _ => forEach f r) w.
Proof.
  revert w. induction l as [|x l IH]; intros w; simpl.
  - done.
  - unfold bind in *. destruct (f x w) as [[] w1|]; [apply IH|done].
Qed.

Lemma forEach_keepsEntry (files : list string) (p : string) :
  (forall q, q ∈ files -> getTargetPathFrom q <> p) ->
  preserves (keepsEntry p) (forEach process files).
Proof.
  induction files as [|q files IH]; intros Hq; simpl.
  - apply preserves_ret, _.
  - apply preserves_bind; [|intros _|apply _].
    + apply process_keepsEntry, Hq, elem_of_cons. by left.
    + apply IH. intros q' Hq'. apply Hq, elem_of_cons. by right.
Qed.

Lemma forEach_keepsCacheAt (files : list string) (p : string) (w : World) :
  p ∉ files ->
  cache (worldOf (forEach process files w)) !! p = cache w !! p.
Proof.
  revert w. induction files as [|q files IH]; intros w Hp; simpl; [done|].
  apply not_elem_of_cons in Hp as [Hne Hp].
  unfold bind. pose proof (process_keepsCacheBut q w p Hne) as Hq.
  destruct (process q w) as [[] w1|e w1]; simpl in *; [|done].
  by rewrite IH.
Qed.


(** *** Before and after the loop *)

Lemma prologue_keepsEntry p n : preserves (keepsEntry p) (prologue n).
Proof. unfold Pipeline.prologue, Pipeline.loadCache. frame. Qed.

Lemma prologue_loads (n : nat) (w : World) (data : string)
    (c : gmap string string) :
  fsys w !! cacheFile = Some (File true data) ->
  JSON_parse data = Some c ->
  prologue n w = Ok tt (MkWorld (fsys w) c (stat w) (console w ++ [StartMsg n])).
Proof.
  intros Hf Hp.
  unfold Pipeline.prologue, Pipeline.loadCache, bind, log, existsSync,
    readFileSync; cbn [fsys].
  rewrite Hf, bool_decide_true by eauto. cbn [fsys]. by rewrite Hf, Hp.
Qed.

Lemma epilogue_Ok (w w' : World) :
  epilogue w = Ok tt w' ->
  cache w' = cache w
  /\ fsys w' = <[cacheFile := File true (JSON_stringify (cache w))]> (fsys w).
Proof.
  unfold Pipeline.epilogue, Pipeline.saveCache, bind, getCache,
    writeFileSync, setDisk, setStat, getStat, log; cbn [fsys cache].
  destruct (fsys w !! cacheFile) as [[|]|]; intros [= <-]; done.
Qed.

Lemma main_split (pre post : list string) (p : string) w0 wp :
  bind (prologue (length (pre ++ p :: post)))
    (fun _ => forEach process pre) w0 = Ok tt wp ->
  main (pre ++ p :: post) w0 =
  bind (process p) (fun _ => bind (forEach process post) (fun _ => epilogue)) wp.
Proof.
  intros H. unfold Pipeline.main. unfold bind in *.
  destruct (prologue _ w0) as [[] w1|]; [|done].
  rewrite forEach_app. unfold bind. rewrite H. simpl. unfold bind.
  by destruct (process p wp).
Qed.



(** *** One HTML file *)




(** *** One enumerated entry *)

(** C9. An enumerated file whose name ends with [.md5] leaves the world
    as it was: no counter moves, the cache is neither consulted nor
    written, nothing is created, copied or rendered. *)
Theorem sidecar_file_ignored (w : World) (p : string) (readable : bool)
    (content : string) :
  fsys w !! p = Some (File readable content) ->
  endsWith p ".md5" = true ->
  process p w = Ok tt w.
Proof.
  intros Hf Hs. unfold Pipeline.process, bind, statSync.
  by rewrite Hf, Hs.
Qed.

(** C1. The pipeline receives no option: [process] and
    [isSrcNotChanged] consult the cache alone, so a file whose stored
    fingerprint matches its content is skipped, forced or not. *)
Theorem matching_fingerprint_skips (w : World) (p content : string) :
  fsys w !! p = Some (File true content) ->
  endsWith p ".md5" = false ->
  cache w !! p = Some (md5hex content) ->
  process p w = Ok tt (skippedIn w).
Proof.
  intros Hf Hs Hc. rewrite (process_file w p content Hf Hs).
  by rewrite bool_decide_true.
Qed.


(** C2, as the code has it.  Nothing catches: when an entry throws, the
    run ends there with that error, in the world the failing entry
    left; no later entry is processed and the cache is not saved.  An
    unreadable file throws before its cache entry is touched. *)
Theorem failure_stops_run
    (pre post : list string) (f : string) (disk : gmap string Entry)
    (w0 w1 w2 : World) (e : Error)
    (w : World) (g content : string) :
  prologue (length (pre ++ f :: post)) (initWorld disk) = Ok tt w0 ->
  forEach process pre w0 = Ok tt w1 ->
  process f w1 = Throw e w2 ->
  fsys w !! g = Some (File false content) ->
  endsWith g ".md5" = false ->
  run (pre ++ f :: post) disk = Throw e w2
  /\ process g w = Throw (EACCES g) w.
Proof.
  intros H0 H1 H2 Hg Hs. split.
  - unfold Pipeline.run. rewrite (main_split pre post f _ w1).
    + by rewrite (bind_Throw _ _ _ _ _ H2).
    + by rewrite (bind_Ok _ _ _ _ _ H0).
  - unfold Pipeline.process, bind, statSync. rewrite Hg, Hs.
    unfold Pipeline.isSrcNotChanged, md5, bind, readFileSync.
    by rewrite Hg.
Qed.

End Program.


Lemma sidecar_file_ignored_witness :
  Sample.process (Sample.src "b.md5") (initWorld Sample.site)
  = Ok tt (initWorld Sample.site).
Proof.
  apply (sidecar_file_ignored Sample.convert Sample.parseInner
           Sample.parseDocument Sample.serialize Sample.styleSheet
           Sample.md5hex Sample.dirname
           (initWorld Sample.site) (Sample.src "b.md5") true "0123").
  - vm_compute; reflexivity.
  - reflexivity.
Defined.

Lemma matching_fingerprint_skips_witness :
  let w := MkWorld Sample.site
             {[Sample.src "c.txt" := Sample.md5hex "ccc"]} initStat [] in
  Sample.process (Sample.src "c.txt") w = Ok tt (skippedIn w).
Proof.
  intros w.
  apply (matching_fingerprint_skips Sample.convert Sample.parseInner
           Sample.parseDocument Sample.serialize Sample.styleSheet
           Sample.md5hex Sample.dirname w (Sample.src "c.txt") "ccc").
  - vm_compute; reflexivity.
  - reflexivity.
  - vm_compute; reflexivity.
Defined.


Lemma failure_stops_run_witness :
  Sample.run [Sample.src "bad.txt"; Sample.src "good.txt"] Sample.brokenSite
  = Throw (EACCES (Sample.src "bad.txt"))
      (MkWorld Sample.brokenSite ∅ initStat [StartMsg 2]).
Proof.
  apply (failure_stops_run Sample.convert Sample.parseInner
           Sample.parseDocument Sample.serialize Sample.styleSheet
           Sample.md5hex Sample.dirname Sample.JSON_stringify
           Sample.JSON_parse
           [] [Sample.src "good.txt"] (Sample.src "bad.txt")
           Sample.brokenSite
           (MkWorld Sample.brokenSite ∅ initStat [StartMsg 2])
           (MkWorld Sample.brokenSite ∅ initStat [StartMsg 2])
           (MkWorld Sample.brokenSite ∅ initStat [StartMsg 2])
           (EACCES (Sample.src "bad.txt"))
           (initWorld Sample.brokenSite) (Sample.src "bad.txt") "?").
  - vm_compute; reflexivity.
  - reflexivity.
  - vm_compute; reflexivity.
  - vm_compute; reflexivity.
  - reflexivity.
Defined.

(** C2 as written fails: with an unreadable first file the run throws
    at it; the readable file after it is never processed (its target
    does not exist, no counter has moved) and no cache file is written. *)
Lemma unreadable_file_aborts_run :
  exists w,
    Sample.run [Sample.src "bad.txt"; Sample.src "good.txt"] Sample.brokenSite
    = Throw (EACCES (Sample.src "bad.txt")) w
    /\ fsys w !! Sample.src "good.txt" = Some (File true "ok")
    /\ fsys w !! Sample.dst "good.txt" = None
    /\ fsys w !! cacheFile = None
    /\ stat w = initStat.
Proof.
  exists (MkWorld Sample.brokenSite ∅ initStat [StartMsg 2]).
  repeat split; vm_compute; reflexivity.
Qed.

End PipelineFacts.

(** * Further properties of the patterns *)

Module PatternLaws.
Import Pattern Notions PatternFacts.

#[local] Arguments String.append : simpl nomatch.

Lemma untilDollar_plain (s after : string) :
  dollarFree s = true -> untilDollar (s +:+ "$" +:+ after) = Some (s, after).
Proof.
  induction s as [|c s IH]; [done|].
  simpl dollarFree. intros [Hc Hs]%andb_prop. apply negb_true_iff in Hc.
  change (String c s +:+ "$" +:+ after) with (String c (s +:+ "$" +:+ after)).
  cbn [untilDollar]. by rewrite Hc, (IH Hs).
Qed.

Lemma execInline_span (pre s rest : string) :
  dollarFree pre = true -> endsEscaped false pre = false ->
  s <> "" -> dollarFree s = true ->
  execInline false (pre +:+ "$" +:+ s +:+ "$" +:+ rest) = Some (pre, s, rest).
Proof.
  intros Hpre He Hne Hs. rewrite execInline_prefix, He by done.
  change ("$" +:+ s +:+ "$" +:+ rest) with (String "$" (s +:+ "$" +:+ rest)).
  cbn [execInline]. unfold matchInline.
  change (isDollar "$") with true. cbv iota.
  rewrite (untilDollar_plain s rest Hs).
  destruct s as [|c s]; [done|]. simpl. by rewrite sapp_nil_r.
Qed.

Lemma replaceWith_identity (delim : string) (ps : list Piece) :
  Dom.replaceWith (fun t => Some (delim +:+ t +:+ delim)) ps
  = Some (source delim ps).
Proof.
  induction ps as [|[x|x] ps IH]; simpl; [done|..]; rewrite IH; simpl;
    by rewrite ?sapp_assoc.
Qed.

Lemma lazyUntilDollars_shortest (s cap after : string) :
  lazyUntilDollars s = Some (cap, after) -> occurs "$$" cap = false.
Proof.
  revert cap. induction s as [|c s IH]; intros cap; [done|].
  cbn [lazyUntilDollars].
  destruct (stripDollars (String c s)) as [r|] eqn:E.
  { by intros [= <- <-]. }
  destruct (lazyUntilDollars s) as [[cap' after']|] eqn:L; [|done].
  intros [= <- <-]. cbn [occurs]. rewrite (IH cap' eq_refl), orb_false_r.
  apply lazyUntilDollars_Some in L. subst s.
  destruct cap' as [|d cap']; cbn [String.prefix].
  - by destruct (Ascii.ascii_dec "$" c).
  - destruct (Ascii.ascii_dec "$" c) as [<-|]; [|done].
    destruct (Ascii.ascii_dec "$" d) as [<-|]; [|done].
    cbn [stripDollars String.append] in E.
    by change (isDollar "$") with true in E.
Qed.

Lemma execDisplay_shortest (s b c a : string) :
  execDisplay s = Some (b, c, a) -> occurs "$$" c = false.
Proof.
  revert b. induction s as [|x s IH]; intros b.
  - done.
  - cbn [execDisplay].
    destruct (matchDisplay (String x s)) as [[cap after]|] eqn:E.
    + intros [= <- <- <-]. unfold matchDisplay in E.
      destruct (stripDollars (String x s)); [|done].
      by apply lazyUntilDollars_shortest in E.
    + destruct (execDisplay s) as [[[b' c'] a']|] eqn:X; [|done].
      intros [= <- <- <-]. by apply (IH b').
Qed.

Lemma lazyUntilDollars_minimal (s cap after cap' after' : string) :
  lazyUntilDollars s = Some (cap, after) ->
  s = cap' +:+ "$$" +:+ after' ->
  String.length cap <= String.length cap'.
Proof.
  revert cap cap'. induction s as [|c s IH]; intros cap cap'; [done|].
  cbn [lazyUntilDollars].
  destruct (stripDollars (String c s)) as [r|] eqn:E.
  { intros [= <- <-] _. simpl. lia. }
  destruct (lazyUntilDollars s) as [[cap0 after0]|] eqn:L; [|done].
  intros [= <- <-] Hs.
  destruct cap' as [|d cap'].
  - rewrite Hs in E. cbn [String.append stripDollars] in E.
    by change (isDollar "$") with true in E.
  - injection Hs as <- ->. simpl.
    specialize (IH cap0 cap' eq_refl eq_refl). lia.
Qed.

Lemma execDisplay_minimal (s b c a c' a' : string) :
  execDisplay s = Some (b, c, a) ->
  c +:+ "$$" +:+ a = c' +:+ "$$" +:+ a' ->
  String.length c <= String.length c'.
Proof.
  revert b. induction s as [|x s IH]; intros b.
  - done.
  - cbn [execDisplay].
    destruct (matchDisplay (String x s)) as [[cap after]|] eqn:E.
    + intros [= <- <- <-]. unfold matchDisplay in E.
      destruct (stripDollars (String x s)) as [r|]; [|done]. simpl in E.
      intros H. apply (lazyUntilDollars_minimal r cap after c' a' E).
      by rewrite (lazyUntilDollars_Some _ _ _ E).
    + destruct (execDisplay s) as [[[b' c0] a0]|] eqn:X; [|done].
      intros [= <- <- <-]. by apply (IH b').
Qed.

Lemma matchAll_span_origin (exec : string -> option Match) (f : nat)
    (s : string) (pre : list Piece) (t : string) (post : list Piece) :
  matchAll exec f s = pre ++ Span t :: post ->
  exists s0 b a f', exec s0 = Some (b, t, a) /\ post = matchAll exec f' a.
Proof.
  assert (forall x, [Lit x] <> pre ++ Span t :: post) as Hlit.
  { intros x. destruct pre as [|? [|??]]; discriminate. }
  revert s pre Hlit. induction f as [|f IH]; intros s pre Hlit; simpl.
  - intros H. by apply Hlit in H.
  - destruct (exec s) as [[[b c] a]|] eqn:E; [|intros H; by apply Hlit in H].
    destruct pre as [|p1 [|p2 pre]]; simpl.
    + discriminate.
    + intros [= <- <- <-]. by exists s, b, a, f.
    + intros [= <- <- H]. apply (IH a pre); [|done].
      intros x. destruct pre as [|? [|??]]; discriminate.
Qed.

Lemma matchAll_spans (exec : string -> option Match) (P : string -> Prop) :
  (forall s b c a, exec s = Some (b, c, a) -> P c) ->
  forall f s, Forall P (spans (matchAll exec f s)).
Proof.
  intros HP f. induction f as [|f IH]; intros s; simpl; [constructor|].
  destruct (exec s) as [[[b c] a]|] eqn:E; simpl; [|constructor].
  constructor; [by apply (HP s b c a)|apply IH].
Qed.

(** X1. The display pattern is not greedy and takes its spans one after
    the other: a dollar-free text, a double dollar, a dollar-free
    notation (line breaks included) and a double dollar give one span,
    and what follows is scanned afresh, so adjacent display spans are
    matched each on its own. *)
Theorem display_span_then_rest (pre s rest : string) :
  dollarFree pre = true -> dollarFree s = true ->
  displayPieces (pre +:+ "$$" +:+ s +:+ "$$" +:+ rest)
  = Lit pre :: Span s :: displayPieces rest.
Proof.
  intros Hpre Hs. apply displayPieces_Some. by apply execDisplay_span.
Qed.

Lemma display_span_then_rest_witness :
  displayPieces ("see " +:+ "$$" +:+ String "010" "a" +:+ "$$" +:+ "$$b$$!")
  = [Lit "see "; Span (String "010" "a"); Lit ""; Span "b"; Lit "!"].
Proof.
  rewrite (display_span_then_rest "see " (String "010" "a") "$$b$$!"
             eq_refl eq_refl).
  reflexivity.
Defined.

(** X2. The inline pattern takes its spans one after the other as well:
    a dollar-free text that does not end with a backslash, a dollar, a
    non-empty dollar-free notation and a dollar give one span, and what
    follows is scanned afresh. *)
Theorem inline_span_then_rest (pre s rest : string) :
  dollarFree pre = true -> endsEscaped false pre = false ->
  s <> "" -> dollarFree s = true ->
  inlinePieces (pre +:+ "$" +:+ s +:+ "$" +:+ rest)
  = Lit pre :: Span s :: inlinePieces rest.
Proof.
  intros Hpre He Hne Hs. apply inlinePieces_Some. by apply execInline_span.
Qed.

Lemma inline_span_then_rest_witness :
  inlinePieces ("x " +:+ "$" +:+ "a" +:+ "$" +:+ " and $b$")
  = [Lit "x "; Span "a"; Lit " and "; Span "b"; Lit ""].
Proof.
  rewrite (inline_span_then_rest "x " "a" " and $b$" eq_refl eq_refl
             ltac:(discriminate) eq_refl).
  reflexivity.
Defined.

(** X3. Substitution loses nothing of the text around the matches: a
    callback that gives every notation back between its delimiters
    makes either replacement return the text it was given. *)
Theorem replace_round_trip (s : string) :
  Dom.replaceWith (fun t => Some ("$$" +:+ t +:+ "$$")) (displayPieces s)
  = Some s
  /\ Dom.replaceWith (fun t => Some ("$" +:+ t +:+ "$")) (inlinePieces s)
     = Some s.
Proof.
  rewrite !replaceWith_identity.
  by rewrite displayPieces_source, inlinePieces_source.
Qed.

(** X4. Every display notation is the shortest possible: it ends at
    the first double dollar that follows its opening delimiter.  Where
    the text after the opening delimiter can be cut as some text, a
    double dollar and a rest, the notation is no longer than that text;
    so it holds no double dollar.  Every inline notation is non-empty
    and holds no dollar at all. *)
Theorem captures_are_tight (s : string) :
  (forall pre t post, displayPieces s = pre ++ Span t :: post ->
     forall t' rest', t +:+ "$$" +:+ source "$$" post = t' +:+ "$$" +:+ rest' ->
       String.length t <= String.length t')
  /\ Forall (fun t => occurs "$$" t = false) (spans (displayPieces s))
  /\ Forall (fun t => t <> "" /\ dollarFree t = true) (spans (inlinePieces s)).
Proof.
  split; [|split].
  - intros pre t post H t' rest'.
    apply matchAll_span_origin in H as (s0 & b & a & f' & E & ->).
    rewrite (matchAll_source execDisplay "$$" execDisplay_Some).
    by apply (execDisplay_minimal s0 b).
  - apply matchAll_spans. intros ????. apply execDisplay_shortest.
  - apply matchAll_spans. intros ???? H.
    by apply execInline_Some in H as (_ & ? & ? & _).
Qed.

End PatternLaws.

(** * Further properties of the walk *)

Module WalkLaws.
Import Pattern Dom Notions PatternFacts DomFacts.

Section Engine.

Variable convert : string -> bool -> option string.
Variable parseInner : string -> string -> list Node.

Local Abbreviation processText := (Dom.processText convert parseInner).
Local Abbreviation processNode := (Dom.processNode convert parseInner).
Local Abbreviation processChildren := (Dom.processChildren convert parseInner).

Lemma processText_unmatched (d : string) :
  unmatched d = true -> processText d = Some ([Text d], quiet).
Proof.
  unfold unmatched, Dom.processText. intros H%negb_true_iff. by rewrite H.
Qed.

Lemma processChildren_plain (cs : list Node) :
  Forall (fun c => processNode c = Some ([c], quiet)) cs ->
  processChildren cs = Some (cs, quiet).
Proof.
  induction 1 as [|c cs Hc _ IH]; simpl; [done|].
  by rewrite Hc, IH.
Qed.

Lemma processChildren_each (cs : list Node) r out :
  processChildren cs = Some (r, out) ->
  exists rs,
    Forall2 (fun c ro => processNode c = Some ro) cs rs
    /\ r = List.concat (fst <$> rs)
    /\ calls out = List.concat ((fun ro => calls ro.2) <$> rs)
    /\ needsUpdate out = existsb (fun ro => needsUpdate ro.2) rs.
Proof.
  revert r out. induction cs as [|c cs IH]; intros r out; simpl.
  - intros [= <- <-]. by exists [].
  - destruct (processNode c) as [ro|] eqn:Hc; simpl; [|done].
    destruct (processChildren cs) as [[r2 o2]|]; simpl; [|done].
    intros [= <- <-].
    destruct (IH r2 o2 eq_refl) as (rs & HF & -> & Hcalls & Hflag).
    exists (ro :: rs). split; [by constructor|]. simpl.
    by rewrite Hcalls, Hflag.
Qed.

End Engine.

Lemma processNode_plain
    (convert : string -> bool -> option string)
    (parseInner : string -> string -> list Node) (n : Node) :
  plainNode n = true ->
  processNode convert parseInner n = Some ([n], quiet).
Proof.
  induction n as [d|d|name attrs cs IH|name attrs cs IH] using Node_induction.
  - apply processText_unmatched.
  - done.
  - cbn [plainNode]. intros [Hm Hc]%andb_prop. apply negb_true_iff in Hm.
    rewrite processNode_Element, Hm.
    destruct (isOpaque name); [done|]. simpl in Hc.
    rewrite processChildren_plain; [done|].
    induction IH as [|c cs Hc1 _ IHcs]; [constructor|].
    apply andb_prop in Hc as [H1 H2]. constructor; auto.
  - cbn [plainNode]. intros Hc. rewrite processNode_SvgElement.
    destruct (isOpaque name); [done|]. simpl in Hc.
    rewrite processChildren_plain; [done|].
    induction IH as [|c cs Hc1 _ IHcs]; [constructor|].
    apply andb_prop in Hc as [H1 H2]. constructor; auto.
Qed.

(** X5. A tree in which no text the walk reaches matches a pattern and
    no element it reaches is a math block comes back as it is: the same
    nodes, no call of the typesetter, the flag not set, whatever the
    typesetter and the tree library are. *)
Theorem plain_tree_untouched
    (convert : string -> bool -> option string)
    (parseInner : string -> string -> list Node) (n : Node) :
  plainNode n = true ->
  processNode convert parseInner n = Some ([n], quiet).
Proof. apply processNode_plain. Qed.

Lemma plain_tree_untouched_witness :
  let tree :=
    Element "BODY" []
      [Text "it costs $5"; Comment "$x$";
       Element "PRE" [] [Text "$$a$$"; Element "P" [("class", "latex-block")] []];
       Element "P" [("class", "note")] [Text "no math"]] in
  processNode (fun _ _ => None) Sample.parseInner tree = Some ([tree], quiet).
Proof.
  intros tree. apply (plain_tree_untouched (fun _ _ => None)). reflexivity.
Defined.

(** X7. Below an element that is neither a math block nor opaque, every
    child is walked on its own, in document order, and only the
    children that were there before: the element keeps its name and
    attributes, its new children are the results of its old children
    put end to end, the calls are their calls put end to end, and the
    flag is set when one of them sets it. *)
Theorem children_walked_in_order
    (convert : string -> bool -> option string)
    (parseInner : string -> string -> list Node)
    (name : string) (attrs : list (string * string)) (cs r : list Node)
    (out : Out) :
  isMathBlock attrs = false -> isOpaque name = false ->
  processNode convert parseInner (Element name attrs cs) = Some (r, out) ->
  exists rs,
    Forall2 (fun c ro => processNode convert parseInner c = Some ro) cs rs
    /\ r = [Element name attrs (List.concat (fst <$> rs))]
    /\ calls out = List.concat ((fun ro => calls ro.2) <$> rs)
    /\ needsUpdate out = existsb (fun ro => needsUpdate ro.2) rs.
Proof.
  intros Hm Ho. rewrite processNode_Element, Hm, Ho.
  destruct (processChildren convert parseInner cs) as [[r' out']|] eqn:E;
    simpl; [|done].
  intros [= <- <-].
  destruct (processChildren_each _ _ _ _ _ E) as (rs & HF & -> & ? & ?).
  by exists rs.
Qed.

Lemma children_walked_in_order_witness :
  exists rs,
    Forall2 (fun c ro => processNode Sample.convert Sample.parseInner c
                         = Some ro)
      [Text "$a$"; Element "CODE" [] [Text "$b$"]; Text "$$c$$"] rs
    /\ (fun ro => calls ro.2) <$> rs
       = [[MkCall "a" false]; []; [MkCall "c" true]].
Proof.
  destruct (children_walked_in_order Sample.convert Sample.parseInner
              "P" [] [Text "$a$"; Element "CODE" [] [Text "$b$"]; Text "$$c$$"]
              _ _ eq_refl eq_refl eq_refl) as (rs & HF & _).
  exists rs. split; [exact HF|].
  repeat match goal with
         | H : Forall2 _ _ _ |- _ => inversion H; clear H; subst
         end.
  repeat match goal with
         | H : processNode _ _ _ = Some _ |- _ =>
             vm_compute in H; injection H as <-
         end.
  reflexivity.
Defined.

End WalkLaws.

(** * Further properties of the driver *)

Module DriverLaws.
Import Pattern Dom Pipeline Notions PatternFacts PipelineFacts.

#[local] Arguments cacheFile : simpl never.

Lemma world_eta (w : World) :
  MkWorld (fsys w) (cache w) (stat w) (console w) = w.
Proof. by destruct w. Qed.

(** *** Paths *)

Lemma replaceFirst_absent (pattern replacement s : string) :
  occurs pattern s = false -> replaceFirst pattern replacement s = s.
Proof.
  induction s as [|c s IH]; cbn [occurs replaceFirst].
  - intros H%orb_false_elim. by rewrite (proj1 H).
  - intros [H1 H2]%orb_false_elim. by rewrite H1, (IH H2).
Qed.

(** X8. Below the public directory the target of a path is the same
    relative path below the rendered directory, also when that relative
    path itself holds the word public; the target never lies below the
    public directory, and two sources never share a target. *)
Theorem target_mirrors_source (name name' : string) :
  getTargetPathFrom (sourceRoot +:+ name)
  = blogRoot +:+ "/" +:+ targetDir +:+ "/" +:+ name
  /\ underSource (getTargetPathFrom (sourceRoot +:+ name)) = false
  /\ (getTargetPathFrom (sourceRoot +:+ name)
      = getTargetPathFrom (sourceRoot +:+ name') <-> name = name').
Proof.
  split; [reflexivity|]. split; [reflexivity|].
  rewrite !target_of_source. split; [|by intros ->].
  intros H. by repeat apply (inj (String.app _)) in H.
Qed.

(** X9. A path in which the word public does not occur is its own
    target: the replacement finds nothing to replace. *)
Theorem target_without_public (path : string) :
  occurs publicDir path = false -> getTargetPathFrom path = path.
Proof. apply replaceFirst_absent. Qed.

Lemma target_without_public_witness :
  getTargetPathFrom "/srv/site/index.html" = "/srv/site/index.html".
Proof. apply (target_without_public "/srv/site/index.html"). reflexivity. Defined.

(** *** Directories *)

Lemma mkdirs_made (paths : list string) (disk : gmap string Entry) q :
  q ∈ paths -> is_Some (mkdirs paths disk !! q).
Proof.
  revert disk. induction paths as [|p paths IH]; intros disk Hq; simpl.
  - by apply elem_of_nil in Hq.
  - apply elem_of_cons in Hq as [->|Hq]; [|by apply IH].
    destruct (disk !! p) as [e|] eqn:E.
    + exists e. by apply mkdirs_lookup.
    + exists Dir. apply mkdirs_lookup. by rewrite lookup_insert_eq.
Qed.

Lemma mkdirs_only (paths : list string) (disk : gmap string Entry) q e :
  mkdirs paths disk !! q = Some e ->
  disk !! q = Some e \/ (e = Dir /\ q ∈ paths).
Proof.
  revert disk. induction paths as [|p paths IH]; intros disk; simpl; [auto|].
  intros [H|[-> H]]%IH.
  - destruct (disk !! p) eqn:E; [by left|].
    destruct (decide (p = q)) as [->|Hne].
    + rewrite lookup_insert_eq in H. injection H as <-.
      right. split; [done|]. apply elem_of_cons. by left.
    + rewrite lookup_insert_ne in H by done. by left.
  - right. split; [done|]. apply elem_of_cons. by right.
Qed.

Lemma ensureDir_outcome (dir : string) (w : World) :
  ensureDir dir w
  = if blocked dir w then Throw (ENOTDIR dir) w else Ok tt (ensured dir w).
Proof.
  unfold ensureDir, ensured, blocked, bind, existsSync, mkdirSync, setDisk.
  case_bool_decide as H; simpl; [done|].
  destruct (existsb _ _); [done|].
  unfold isFile. destruct (fsys w !! dir) as [e|] eqn:E; [|done].
  destruct H. by eexists.
Qed.

Lemma ensureDir_ensured (dir : string) (w : World) :
  blocked dir w = false -> ensureDir dir w = Ok tt (ensured dir w).
Proof. intros H. by rewrite ensureDir_outcome, H. Qed.

Lemma ensureDir_blocked (dir : string) (w : World) :
  blocked dir w = true -> ensureDir dir w = Throw (ENOTDIR dir) w.
Proof. intros H. by rewrite ensureDir_outcome, H. Qed.

Lemma ensured_subseteq (dir : string) (w : World) :
  fsys w ⊆ fsys (ensured dir w).
Proof.
  unfold ensured. case_bool_decide as H; [done|]. simpl.
  apply mkdirs_subseteq.
Qed.

Lemma ensured_exists (dir : string) (w : World) :
  is_Some (fsys (ensured dir w) !! dir).
Proof.
  unfold ensured. case_bool_decide as H; [done|]. simpl.
  apply mkdirs_made, elem_of_app. right. by apply elem_of_cons; left.
Qed.

Lemma ensured_above (dir : string) (w : World) :
  is_Some (fsys w !! dir)
  \/ Forall (fun a => is_Some (fsys (ensured dir w) !! a)) (ancestors dir).
Proof.
  unfold ensured. case_bool_decide as H; [by left|]. right. simpl.
  apply Forall_forall. intros a Ha.
  apply mkdirs_made, elem_of_app. by left.
Qed.

Lemma ensured_only (dir q : string) (w : World) (e : Entry) :
  fsys (ensured dir w) !! q = Some e ->
  fsys w !! q = Some e \/ (e = Dir /\ q ∈ ancestors dir ++ [dir]).
Proof.
  unfold ensured. case_bool_decide as H; [by left|]. simpl.
  apply mkdirs_only.
Qed.

Lemma ensured_same (dir : string) (w : World) :
  is_Some (fsys w !! dir) -> ensured dir w = w.
Proof. intros H. unfold ensured. by rewrite bool_decide_true. Qed.

Lemma blocked_exists (dir : string) (w : World) :
  is_Some (fsys w !! dir) -> blocked dir w = false.
Proof. intros H. unfold blocked. by rewrite bool_decide_true. Qed.

Lemma ensured_lookup (dir p : string) (w : World) (e : Entry) :
  fsys w !! p = Some e -> fsys (ensured dir w) !! p = Some e.
Proof. intros H. by apply (lookup_weaken _ _ _ _ H), ensured_subseteq. Qed.


Lemma blocked_withFingerprint (dir p h : string) (w : World) :
  blocked dir (withFingerprint p h w) = blocked dir w.
Proof. reflexivity. Qed.

(** X10. [ensureDir] asks for the path only: when it exists, as a
    directory or as a file, the world is left as it is.  When it does
    not and a regular file stands above it, the call throws and nothing
    is made.  Otherwise the path and every missing directory above it
    are made: no entry that was there changes, whatever is new is a
    directory on the way to the path, and the path and all that is
    above it exist.  Ensuring the path once more then changes
    nothing. *)
Theorem ensureDir_idempotent (dir : string) (w : World) :
  ensureDir dir w
  = (if blocked dir w then Throw (ENOTDIR dir) w else Ok tt (ensured dir w))
  /\ fsys w ⊆ fsys (ensured dir w)
  /\ (forall q e, fsys (ensured dir w) !! q = Some e ->
        fsys w !! q = Some e \/ (e = Dir /\ q ∈ ancestors dir ++ [dir]))
  /\ is_Some (fsys (ensured dir w) !! dir)
  /\ (is_Some (fsys w !! dir)
      \/ Forall (fun a => is_Some (fsys (ensured dir w) !! a)) (ancestors dir))
  /\ ensureDir dir (ensured dir w) = Ok tt (ensured dir w).
Proof.
  split; [apply ensureDir_outcome|]. split; [apply ensured_subseteq|].
  split; [intros q e; apply ensured_only|].
  split; [apply ensured_exists|]. split; [apply ensured_above|].
  rewrite ensureDir_ensured by apply blocked_exists, ensured_exists.
  f_equal. apply ensured_same, ensured_exists.
Qed.

(** *** More relations a statement preserves *)

Global Instance keepsPaths_preorder : PreOrder keepsPaths.
Proof. split; unfold keepsPaths; [intros ?|intros ???]; naive_solver. Qed.

Global Instance keepsCacheKeys_preorder : PreOrder keepsCacheKeys.
Proof. split; unfold keepsCacheKeys; [intros ?|intros ???]; naive_solver. Qed.

Lemma keepsCache_keys (w w' : World) : keepsCache w w' -> keepsCacheKeys w w'.
Proof. unfold keepsCache, keepsCacheKeys. by intros ->. Qed.

Lemma log_keepsPaths msg : preserves keepsPaths (log msg).
Proof. by intros w p Hp. Qed.

Lemma setStat_keepsPaths f : preserves keepsPaths (setStat f).
Proof. by intros w p Hp. Qed.

Lemma setCache_keepsPaths f : preserves keepsPaths (setCache f).
Proof. by intros w p Hp. Qed.

Lemma writeFileSync_keepsPaths path data :
  preserves keepsPaths (writeFileSync path data).
Proof.
  intros w p Hp. unfold writeFileSync.
  repeat case_match; simpl; try done;
    (destruct (decide (path = p)) as [->|];
     [rewrite lookup_insert_eq; by eexists|by rewrite lookup_insert_ne]).
Qed.

Lemma ensureDir_keepsPaths dir : preserves keepsPaths (ensureDir dir).
Proof.
  intros w p [e Hp]. exists e. by apply ensureDir_keepsEntry.
Qed.

Ltac paths :=
  repeat first
    [ apply log_keepsPaths
    | apply setStat_keepsPaths
    | apply setCache_keepsPaths
    | apply writeFileSync_keepsPaths
    | apply ensureDir_keepsPaths
    | progress frame ].

Lemma copyFileSync_keepsPaths src dest :
  preserves keepsPaths (copyFileSync src dest).
Proof. unfold copyFileSync. paths. Qed.

Section Program.

Variable convert : string -> bool -> option string.
Variable parseInner : string -> string -> list Node.
Variable parseDocument : string -> Document.
Variable serialize : Document -> list Node -> list Node -> string.
Variable styleSheet : string.
Variable md5hex : string -> string.
Variable dirname : string -> string.
Variable JSON_stringify : gmap string string -> string.
Variable JSON_parse : string -> option (gmap string string).

Local Abbreviation processHtml :=
  (Pipeline.processHtml convert parseInner parseDocument serialize styleSheet).
Local Abbreviation process :=
  (Pipeline.process convert parseInner parseDocument serialize styleSheet
     md5hex dirname).
Local Abbreviation reprocess :=
  (Pipeline.reprocess convert parseInner parseDocument serialize styleSheet
     dirname).
Local Abbreviation prologue := (Pipeline.prologue JSON_parse).
Local Abbreviation epilogue := (Pipeline.epilogue JSON_stringify).
Local Abbreviation main :=
  (Pipeline.main convert parseInner parseDocument serialize styleSheet
     md5hex dirname JSON_stringify JSON_parse).
Local Abbreviation run :=
  (Pipeline.run convert parseInner parseDocument serialize styleSheet
     md5hex dirname JSON_stringify JSON_parse).

(** *** One entry *)

Lemma process_Dir (w : World) (p : string) :
  fsys w !! p = Some Dir ->
  process p w =
  if blocked (getTargetPathFrom p) w
  then Throw (ENOTDIR (getTargetPathFrom p)) w
  else Ok tt (MkWorld (fsys (ensured (getTargetPathFrom p) w)) (cache w)
                (bump_directories (stat w)) (console w)).
Proof.
  intros Hf. unfold Pipeline.process.
  rewrite (bind_Ok _ _ w w Dir) by (unfold statSync; by rewrite Hf).
  unfold bind. rewrite ensureDir_outcome.
  destruct (blocked _ w); [done|].
  unfold setStat, ensured. by case_bool_decide.
Qed.





(** X11. A directory entry has its target directory ensured and counts
    as a directory, whatever its name ends with; no file is written and
    the cache is left alone.  When the target does not exist and a
    regular file stands above it, the entry throws instead, with
    nothing made and nothing counted. *)
Theorem directory_is_mirrored (w : World) (p : string) :
  fsys w !! p = Some Dir ->
  process p w =
  if blocked (getTargetPathFrom p) w
  then Throw (ENOTDIR (getTargetPathFrom p)) w
  else Ok tt (MkWorld (fsys (ensured (getTargetPathFrom p) w)) (cache w)
                (bump_directories (stat w)) (console w)).
Proof. apply process_Dir. Qed.



(** X20. When the typesetter throws on a notation of a changed HTML
    file, nothing is written for the file and no counter moves, while
    the fresh fingerprint is already in the in-memory cache.  The entry
    throws [RenderError] once the parent directory of the target has
    been ensured; when that directory cannot be made, a regular file
    standing above it, the entry throws before the file is read and the
    typesetter is never asked. *)
Theorem render_failure_writes_nothing (w : World) (p content : string) :
  fsys w !! p = Some (File true content) ->
  endsWith p ".md5" = false -> endsWith p ".html" = true ->
  cache w !! p <> Some (md5hex content) ->
  Dom.processNode convert parseInner (body (parseDocument content)) = None ->
  process p w =
  if blocked (dirname (getTargetPathFrom p)) w
  then Throw (ENOTDIR (dirname (getTargetPathFrom p)))
         (withFingerprint p (md5hex content) w)
  else Throw RenderError
         (ensured (dirname (getTargetPathFrom p))
            (withFingerprint p (md5hex content) w)).
Proof.
  intros Hf Hs Hh Hc Hn.
  rewrite (process_file _ _ _ _ _ _ _ w p content Hf Hs).
  rewrite bool_decide_false by done. unfold Pipeline.reprocess.
  unfold bind at 1. rewrite ensureDir_outcome, blocked_withFingerprint.
  destruct (blocked _ w); [done|]. rewrite Hh.
  unfold Pipeline.processHtml, bind, readFileSync.
  rewrite (ensured_lookup _ p (withFingerprint p (md5hex content) w) _ Hf).
  by rewrite Hn.
Qed.

(** *** Counters *)

Lemma processHtml_counts (src tgt : string) (w w' : World) :
  processHtml src tgt w = Ok tt w' ->
  counterSum (stat w') = S (counterSum (stat w)).
Proof.
  unfold Pipeline.processHtml, bind, readFileSync, throw, copyFileSync,
    bind, readFileSync, writeFileSync, setDisk, setStat, log, silent, ret.
  intros H. repeat case_match; simplify_eq/=;
    unfold counterSum; simpl; lia.
Qed.

Lemma reprocess_counts (p : string) (w w' : World) :
  reprocess p w = Ok tt w' ->
  counterSum (stat w') = S (counterSum (stat w)).
Proof.
  unfold Pipeline.reprocess.
  unfold bind at 1. rewrite ensureDir_outcome.
  destruct (blocked _ w); [done|].
  assert (stat (ensured (dirname (getTargetPathFrom p)) w) = stat w) as <-.
  { unfold ensured. by case_bool_decide. }
  generalize (ensured (dirname (getTargetPathFrom p)) w). intros w1.
  destruct (endsWith p ".html"); [apply processHtml_counts|].
  unfold bind, copyFileSync, bind, readFileSync, writeFileSync, setDisk,
    setStat, log, silent, ret.
  intros H. repeat case_match; simplify_eq/=;
    unfold counterSum; simpl; lia.
Qed.

Lemma process_counts (q : string) (w w' : World) :
  process q w = Ok tt w' ->
  counterSum (stat w')
  = counterSum (stat w) + (if sidecarOn (fsys w) q then 0 else 1).
Proof.
  unfold sidecarOn. destruct (fsys w !! q) as [[|r c]|] eqn:Hf.
  - rewrite (process_Dir w q Hf). destruct (blocked _ w); [done|].
    intros [= <-]. unfold counterSum; simpl; lia.
  - destruct (endsWith q ".md5") eqn:Hs.
    { unfold Pipeline.process, bind, statSync. rewrite Hf, Hs.
      intros [= <-]. lia. }
    destruct r.
    + rewrite (process_file _ _ _ _ _ _ _ w q c Hf Hs).
      case_bool_decide.
      * intros [= <-]. unfold counterSum; simpl; lia.
      * intros Hr%reprocess_counts. simpl in Hr. lia.
    + unfold Pipeline.process, bind, statSync. rewrite Hf, Hs.
      unfold Pipeline.isSrcNotChanged, md5, bind, readFileSync.
      by rewrite Hf.
  - unfold Pipeline.process, bind, statSync. by rewrite Hf.
Qed.

Lemma countedEntries_ext (disk disk' : gmap string Entry)
    (files : list string) :
  Forall (fun q => disk !! q = disk' !! q) files ->
  countedEntries disk files = countedEntries disk' files.
Proof.
  unfold countedEntries, sidecarOn.
  induction 1 as [|q files Hq _ IH]; simpl; [done|].
  rewrite Hq. case_match; simpl; by rewrite IH.
Qed.

Lemma forEach_counts (files : list string) (w w' : World) :
  forEach process files w = Ok tt w' ->
  Forall (fun q => underSource q = true) files ->
  Forall (fun q => is_Some (fsys w !! q)) files ->
  counterSum (stat w')
  = counterSum (stat w) + countedEntries (fsys w) files.
Proof.
  revert w. induction files as [|q files IH]; intros w Hrun Hu He.
  - simpl in Hrun. injection Hrun as <-. unfold countedEntries; simpl. lia.
  - simpl in Hrun. apply bind_Ok_inv in Hrun as ([] & w1 & H1 & Hrun).
    apply Forall_cons in Hu as [Hq Hu]. apply Forall_cons in He as [_ He].
    assert (Forall (fun q' => fsys w !! q' = fsys w1 !! q') files) as Hsame.
    { rewrite Forall_forall in Hu, He. apply Forall_forall. intros q' Hq'.
      destruct (He q' Hq') as [e Hq'e]. rewrite Hq'e. symmetry.
      pose proof (process_keepsEntry convert parseInner parseDocument
                    serialize styleSheet md5hex dirname q' q
                    (target_not_source q q' Hq (Hu q' Hq')) w) as Hk.
      rewrite H1 in Hk. by apply Hk. }
    rewrite (IH w1 Hrun Hu).
    2:{ rewrite Forall_forall in He, Hsame |- *. intros q' Hq'.
        rewrite <-(Hsame q' Hq'). by apply He. }
    rewrite (process_counts q w w1 H1).
    rewrite <-(countedEntries_ext _ _ _ Hsame).
    unfold countedEntries. simpl.
    destruct (sidecarOn (fsys w) q); simpl; lia.
Qed.

Lemma prologue_Ok (n : nat) (w w' : World) :
  prologue n w = Ok tt w' -> fsys w' = fsys w /\ stat w' = stat w.
Proof.
  unfold Pipeline.prologue, Pipeline.loadCache, bind, log, existsSync,
    readFileSync, setCache, throw, ret.
  intros H. by repeat case_match; simplify_eq/=.
Qed.

Lemma epilogue_stat (w w' : World) :
  epilogue w = Ok tt w' -> stat w' = set_total (stat w).
Proof.
  unfold Pipeline.epilogue, Pipeline.saveCache, bind, getCache,
    writeFileSync, setDisk, setStat, getStat, log.
  intros H. by repeat case_match; simplify_eq/=.
Qed.

(** X14. In a run that completes over existing paths below the public
    directory every enumerated entry is counted exactly once, as a
    directory, as rendered, as copied or as skipped, except the sidecar
    files, which are not counted: the four counters add up to the number
    of entries that are not sidecar files, and that is the total
    reported. *)
Theorem every_entry_counted_once (files : list string)
    (disk : gmap string Entry) (w1 : World) :
  run files disk = Ok tt w1 ->
  Forall (fun q => underSource q = true) files ->
  Forall (fun q => is_Some (disk !! q)) files ->
  counterSum (stat w1) = countedEntries disk files
  /\ total (stat w1) = Some (countedEntries disk files).
Proof.
  intros Hrun Hu He. unfold Pipeline.run, Pipeline.main in Hrun.
  apply bind_Ok_inv in Hrun as ([] & wa & Ha & Hrun).
  apply bind_Ok_inv in Hrun as ([] & wb & Hb & Hrun).
  apply prologue_Ok in Ha as [Hfa Hsa]. simpl in Hfa, Hsa.
  apply epilogue_stat in Hrun.
  pose proof (forEach_counts files wa wb Hb Hu) as Hc.
  rewrite Hfa, Hsa in Hc. specialize (Hc He).
  rewrite Hrun. unfold counterSum in *. simpl in *. split; [lia|].
  f_equal. lia.
Qed.

(** *** The cache file *)

(** X15. The cache file is all that is read before the loop.  Without
    one the loop starts with an empty cache; with a readable one that
    parses, with the parsed cache; when it is a directory, unreadable or
    does not parse, the run throws before any entry is processed, the
    disk untouched. *)
Theorem cache_load_outcomes (files : list string) (disk : gmap string Entry) :
  let started c := MkWorld disk c initStat [StartMsg (length files)] in
  run files disk =
  match disk !! cacheFile with
  | None => bind (forEach process files) (fun _ => epilogue) (started ∅)
  | Some Dir => Throw (EISDIR cacheFile) (started ∅)
  | Some (File false _) => Throw (EACCES cacheFile) (started ∅)
  | Some (File true data) =>
      match JSON_parse data with
      | Some c => bind (forEach process files) (fun _ => epilogue) (started c)
      | None => Throw SyntaxError (started ∅)
      end
  end.
Proof.
  intros started. unfold Pipeline.run, Pipeline.main.
  unfold bind at 1. unfold Pipeline.prologue, Pipeline.loadCache.
  unfold bind at 1. unfold log at 1. cbn [initWorld fsys cache stat console].
  unfold bind at 1, existsSync. cbn [fsys].
  destruct (disk !! cacheFile) as [[|[] data]|] eqn:E.
  - rewrite bool_decide_true by eauto.
    unfold bind, readFileSync; cbn [fsys]. by rewrite E.
  - rewrite bool_decide_true by eauto.
    unfold bind at 1, readFileSync; cbn [fsys]. rewrite E.
    by destruct (JSON_parse data).
  - rewrite bool_decide_true by eauto.
    unfold bind, readFileSync; cbn [fsys]. by rewrite E.
  - rewrite bool_decide_false by (by intros [??]). done.
Qed.

Lemma reload (files : list string) (disk : gmap string Entry) (w1 : World)
    (n : nat) :
  run files disk = Ok tt w1 ->
  JSON_parse (JSON_stringify (cache w1)) = Some (cache w1) ->
  prologue n (initWorld (fsys w1))
  = Ok tt (MkWorld (fsys w1) (cache w1) initStat [StartMsg n]).
Proof.
  intros Hrun Hj. unfold Pipeline.run, Pipeline.main in Hrun.
  apply bind_Ok_inv in Hrun as ([] & wa & _ & Hrun).
  apply bind_Ok_inv in Hrun as ([] & wb & _ & Hrun).
  apply epilogue_Ok in Hrun as [Hc Hd].
  apply (prologue_loads JSON_parse n (initWorld (fsys w1))
           (JSON_stringify (cache w1))); [|done].
  simpl. by rewrite Hd, Hc, lookup_insert_eq.
Qed.

(** X16. What a completed run saves, the next run loads: whatever the
    files and the disk were, the world the next run starts its loop in
    has the disk the run left and the cache the run ended with,
    provided the JSON codec gives that cache back. *)
Theorem saved_cache_is_loaded (files : list string)
    (disk : gmap string Entry) (w1 : World) (n : nat) :
  run files disk = Ok tt w1 ->
  JSON_parse (JSON_stringify (cache w1)) = Some (cache w1) ->
  fsys w1 !! cacheFile = Some (File true (JSON_stringify (cache w1)))
  /\ prologue n (initWorld (fsys w1))
     = Ok tt (MkWorld (fsys w1) (cache w1) initStat [StartMsg n]).
Proof.
  intros Hrun Hj. split; [|by apply (reload files disk)].
  unfold Pipeline.run, Pipeline.main in Hrun.
  apply bind_Ok_inv in Hrun as ([] & wa & _ & Hrun).
  apply bind_Ok_inv in Hrun as ([] & wb & _ & Hrun).
  apply epilogue_Ok in Hrun as [Hc Hd].
  by rewrite Hd, Hc, lookup_insert_eq.
Qed.

(** *** What a run never does *)

Lemma processHtml_keepsPaths src tgt :
  preserves keepsPaths (processHtml src tgt).
Proof. unfold Pipeline.processHtml. paths; apply copyFileSync_keepsPaths. Qed.

Lemma process_keepsPaths q : preserves keepsPaths (process q).
Proof.
  unfold Pipeline.process, Pipeline.isSrcNotChanged, md5. paths.
  - apply processHtml_keepsPaths.
  - apply copyFileSync_keepsPaths.
Qed.

Lemma isSrcNotChanged_keepsCacheKeys src :
  preserves keepsCacheKeys (Pipeline.isSrcNotChanged md5hex src).
Proof.
  unfold Pipeline.isSrcNotChanged, md5. frame.
  intros w p Hp. simpl. destruct (decide (src = p)) as [->|].
  - rewrite lookup_insert_eq. by eexists.
  - by rewrite lookup_insert_ne.
Qed.

Lemma process_keepsCacheKeys q : preserves keepsCacheKeys (process q).
Proof.
  unfold Pipeline.process. frame;
    try apply isSrcNotChanged_keepsCacheKeys;
    apply (preserves_weaken keepsCache); try apply keepsCache_keys; frame.
  - apply ensureDir_keepsCache.
  - apply ensureDir_keepsCache.
  - apply processHtml_keepsCache.
  - apply copyFileSync_keepsCache.
Qed.

Lemma forEach_keepsCacheKeys files :
  preserves keepsCacheKeys (forEach process files).
Proof.
  induction files as [|q files IH]; simpl.
  - apply preserves_ret, _.
  - apply preserves_bind; [apply process_keepsCacheKeys|by intros _|apply _].
Qed.

Lemma epilogue_keepsCache : preserves keepsCache epilogue.
Proof. unfold Pipeline.epilogue, Pipeline.saveCache. frame. Qed.

Lemma cacheFile_outside (p : string) : underSource p = true -> cacheFile <> p.
Proof. intros Hp <-. vm_compute in Hp. discriminate Hp. Qed.

Lemma epilogue_keepsEntry (p : string) :
  underSource p = true -> preserves (keepsEntry p) epilogue.
Proof.
  intros Hp. unfold Pipeline.epilogue, Pipeline.saveCache. frame.
  by apply writeFileSync_keepsEntry, cacheFile_outside.
Qed.

Lemma main_keepsEntry (files : list string) (p : string) :
  Forall (fun q => underSource q = true) files -> underSource p = true ->
  preserves (keepsEntry p) (main files).
Proof.
  intros Hu Hp. unfold Pipeline.main.
  apply preserves_bind; [apply prologue_keepsEntry|intros _|apply _].
  apply preserves_bind; [|intros _; by apply epilogue_keepsEntry|apply _].
  apply forEach_keepsEntry. intros q Hq. apply target_not_source; [|done].
  rewrite Forall_forall in Hu. by apply Hu.
Qed.

(** X17. A run never changes or removes an entry of the source tree:
    every path below the public directory that existed before the run
    holds the same entry after it, whether the run completed or threw. *)
Theorem source_tree_untouched (files : list string)
    (disk : gmap string Entry) (p : string) (e : Entry) :
  Forall (fun q => underSource q = true) files ->
  underSource p = true -> disk !! p = Some e ->
  fsys (worldOf (run files disk)) !! p = Some e.
Proof.
  intros Hu Hp He. by apply (main_keepsEntry files p Hu Hp (initWorld disk)).
Qed.

(** X18. Processing only ever adds fingerprints or replaces the one of
    the file at hand: once the cache is loaded, a run, completed or
    not, leaves the entry of every path it did not enumerate as it was
    loaded, stale ones included, and drops no key. *)
Theorem stale_entries_persist (files : list string)
    (disk : gmap string Entry) (w0 : World) (p p' : string) :
  prologue (length files) (initWorld disk) = Ok tt w0 ->
  p ∉ files -> is_Some (cache w0 !! p') ->
  cache (worldOf (run files disk)) !! p = cache w0 !! p
  /\ is_Some (cache (worldOf (run files disk)) !! p').
Proof.
  intros H0 Hp Hp'. unfold Pipeline.run, Pipeline.main.
  rewrite (bind_Ok _ _ _ _ _ H0). unfold bind.
  pose proof (forEach_keepsCacheAt convert parseInner parseDocument
                serialize styleSheet md5hex dirname files p w0 Hp) as Hat.
  pose proof (forEach_keepsCacheKeys files w0 p' Hp') as Hkeys.
  destruct (forEach process files w0) as [[] wb|e wb]; simpl in *; [|done].
  pose proof (epilogue_keepsCache wb) as Hk. unfold keepsCache in Hk.
  by rewrite Hk.
Qed.

(** *** Running again *)

Lemma settled_same (w w' : World) (q : string) :
  fsys w' = fsys w -> cache w' = cache w ->
  settled md5hex w q -> settled md5hex w' q.
Proof. unfold settled. by intros -> ->. Qed.

Lemma process_settles (q : string) (w w' : World) :
  process q w = Ok tt w' -> underSource q = true -> settled md5hex w' q.
Proof.
  intros Hrun Hq. unfold settled.
  destruct (fsys w !! q) as [[|r c]|] eqn:Hf.
  - rewrite (process_Dir w q Hf) in Hrun.
    destruct (blocked _ w); [done|]. injection Hrun as <-. simpl.
    rewrite (ensured_lookup _ _ _ _ Hf). apply ensured_exists.
  - destruct (endsWith q ".md5") eqn:Hs.
    { unfold Pipeline.process, bind, statSync in Hrun. rewrite Hf, Hs in Hrun.
      injection Hrun as <-. rewrite Hf. by left. }
    destruct r.
    + rewrite (process_file _ _ _ _ _ _ _ w q c Hf Hs) in Hrun.
      case_bool_decide as Hc.
      * injection Hrun as <-. simpl. rewrite Hf. by right.
      * pose proof (reprocess_keepsEntry convert parseInner parseDocument
                      serialize styleSheet dirname q q
                      (target_not_source q q Hq Hq)
                      (withFingerprint q (md5hex c) w) _ Hf) as Hk.
        pose proof (reprocess_keepsCache convert parseInner parseDocument
                      serialize styleSheet dirname q
                      (withFingerprint q (md5hex c) w)) as Hkc.
        unfold keepsCache in Hkc. rewrite Hrun in Hk, Hkc.
        simpl in Hk, Hkc.
        rewrite Hk. right. split; [done|].
        rewrite Hkc. apply lookup_insert_eq.
    + unfold Pipeline.process, bind, statSync in Hrun. rewrite Hf, Hs in Hrun.
      unfold Pipeline.isSrcNotChanged, md5, bind, readFileSync in Hrun.
      by rewrite Hf in Hrun.
  - unfold Pipeline.process, bind, statSync in Hrun. by rewrite Hf in Hrun.
Qed.

Lemma settled_kept (q q' : string) (w w' : World) :
  settled md5hex w q -> process q' w = Ok tt w' ->
  underSource q = true -> underSource q' = true ->
  settled md5hex w' q.
Proof.
  intros Hs Hrun Hq Hq'.
  destruct (decide (q' = q)) as [->|Hne]; [by apply (process_settles q w)|].
  unfold settled in *.
  destruct (fsys w !! q) as [e|] eqn:Hf; [|done].
  pose proof (process_keepsEntry convert parseInner parseDocument serialize
                styleSheet md5hex dirname q q'
                (target_not_source q' q Hq' Hq) w _ Hf) as Hk.
  rewrite Hrun in Hk. simpl in Hk. rewrite Hk.
  destruct e as [|r c].
  - pose proof (process_keepsPaths q' w _ Hs) as Hp. by rewrite Hrun in Hp.
  - destruct Hs as [?|[? Hc]]; [by left|right]. split; [done|].
    pose proof (process_keepsCacheBut convert parseInner parseDocument
                  serialize styleSheet md5hex dirname q' w q
                  (not_eq_sym Hne)) as Hb.
    rewrite Hrun in Hb. simpl in Hb. by rewrite Hb.
Qed.

Lemma forEach_settles (files : list string) (w w' : World) :
  forEach process files w = Ok tt w' ->
  Forall (fun q => underSource q = true) files ->
  forall q, underSource q = true ->
    q ∈ files \/ settled md5hex w q -> settled md5hex w' q.
Proof.
  revert w. induction files as [|q0 files IH]; intros w Hrun Hu q Hq Hin.
  - simpl in Hrun. injection Hrun as <-. destruct Hin as [Hin|]; [|done].
    by apply elem_of_nil in Hin.
  - simpl in Hrun. apply bind_Ok_inv in Hrun as ([] & w1 & H1 & Hrun).
    apply Forall_cons in Hu as [Hq0 Hu].
    apply (IH w1 Hrun Hu q Hq).
    destruct Hin as [Hin|Hs].
    + apply elem_of_cons in Hin as [->|Hin]; [right|by left].
      by apply (process_settles q0 w).
    + right. by apply (settled_kept q q0 w).
Qed.

Lemma epilogue_settled (w w' : World) (q : string) :
  epilogue w = Ok tt w' -> underSource q = true ->
  settled md5hex w q -> settled md5hex w' q.
Proof.
  intros [Hc Hd]%epilogue_Ok Hq. unfold settled. rewrite Hd, Hc.
  rewrite lookup_insert_ne by by apply cacheFile_outside.
  destruct (fsys w !! q) as [[|r c]|]; [|done..].
  intros [e He]. destruct (decide (cacheFile = getTargetPathFrom q)) as [<-|].
  - rewrite lookup_insert_eq. by eexists.
  - rewrite lookup_insert_ne by done. by eexists.
Qed.

Lemma process_settled (q : string) (w : World) :
  settled md5hex w q ->
  exists s, process q w = Ok tt (MkWorld (fsys w) (cache w) s (console w))
    /\ rendered s = rendered (stat w) /\ copied s = copied (stat w).
Proof.
  unfold settled. destruct (fsys w !! q) as [[|r c]|] eqn:Hf; [| |done].
  - intros Ht.
    rewrite (process_Dir w q Hf), (blocked_exists _ _ Ht),
      (ensured_same _ _ Ht).
    by eexists.
  - destruct (endsWith q ".md5") eqn:Hs.
    { intros _. exists (stat w). rewrite world_eta.
      unfold Pipeline.process, bind, statSync. by rewrite Hf, Hs. }
    intros [?|[-> Hc]]; [done|].
    rewrite (process_file _ _ _ _ _ _ _ w q c Hf Hs).
    rewrite bool_decide_true by done. by eexists.
Qed.

Lemma forEach_settled (files : list string) (w : World) :
  Forall (settled md5hex w) files ->
  exists s,
    forEach process files w = Ok tt (MkWorld (fsys w) (cache w) s (console w))
    /\ rendered s = rendered (stat w) /\ copied s = copied (stat w).
Proof.
  revert w. induction files as [|q files IH]; intros w Hs.
  - exists (stat w). by rewrite world_eta.
  - apply Forall_cons in Hs as [Hq Hs].
    destruct (process_settled q w Hq) as (s1 & H1 & Hr1 & Hc1).
    simpl. rewrite (bind_Ok _ _ _ _ _ H1).
    destruct (IH (MkWorld (fsys w) (cache w) s1 (console w)))
      as (s2 & H2 & Hr2 & Hc2).
    { eapply Forall_impl; [exact Hs|]. intros q'. by apply settled_same. }
    exists s2. simpl in *. by rewrite H2, Hr2, Hc2.
Qed.

(** X19. Running again over an unchanged tree changes nothing: after a
    run that completed over paths below the public directory, the same
    run on the disk it left completes as well, renders nothing and
    copies nothing, and leaves the disk, cache file included, and the
    cache exactly as they were. *)
Theorem second_run_changes_nothing (files : list string)
    (disk : gmap string Entry) (w1 : World) :
  run files disk = Ok tt w1 ->
  Forall (fun q => underSource q = true) files ->
  JSON_parse (JSON_stringify (cache w1)) = Some (cache w1) ->
  exists w2,
    run files (fsys w1) = Ok tt w2
    /\ fsys w2 = fsys w1 /\ cache w2 = cache w1
    /\ rendered (stat w2) = 0 /\ copied (stat w2) = 0.
Proof.
  intros Hrun Hu Hj.
  pose proof (reload files disk w1 (length files) Hrun Hj) as Hload.
  assert (fsys w1 !! cacheFile = Some (File true (JSON_stringify (cache w1)))
          /\ Forall (settled md5hex w1) files) as [Hfile Hs].
  { unfold Pipeline.run, Pipeline.main in Hrun.
    apply bind_Ok_inv in Hrun as ([] & wa & _ & Hrun).
    apply bind_Ok_inv in Hrun as ([] & wb & Hb & Hrun).
    split.
    - apply epilogue_Ok in Hrun as [Hc Hd].
      by rewrite Hd, Hc, lookup_insert_eq.
    - apply Forall_forall. intros q Hq.
      assert (underSource q = true) as Huq.
      { rewrite Forall_forall in Hu. by apply Hu. }
      apply (epilogue_settled wb w1 q Hrun Huq).
      apply (forEach_settles files wa wb Hb Hu q Huq). by left. }
  set (w0 := MkWorld (fsys w1) (cache w1) initStat [StartMsg (length files)])
    in *.
  destruct (forEach_settled files w0) as (s & Hloop & Hr & Hc).
  { eapply Forall_impl; [exact Hs|]. intros q. by apply settled_same. }
  unfold Pipeline.run, Pipeline.main.
  rewrite (bind_Ok _ _ _ _ _ Hload), (bind_Ok _ _ _ _ _ Hloop).
  unfold Pipeline.epilogue, Pipeline.saveCache, bind, getCache,
    writeFileSync, setDisk, setStat, getStat, log. cbn.
  rewrite Hfile. cbn. eexists. split; [done|]. cbn.
  split; [by apply insert_id|]. by rewrite Hr, Hc.
Qed.

End Program.

Lemma directory_is_mirrored_witness :
  let w := initWorld Sample.site in
  Sample.process (Sample.src "d") w
  = Ok tt (MkWorld (fsys (ensured (getTargetPathFrom (Sample.src "d")) w))
             (cache w) (bump_directories (stat w)) (console w)).
Proof.
  intros w.
  assert (fsys w !! Sample.src "d" = Some Dir) as Hd
    by (vm_compute; reflexivity).
  assert (blocked (getTargetPathFrom (Sample.src "d")) w = false) as Hb
    by (vm_compute; reflexivity).
  pose proof (directory_is_mirrored Sample.convert Sample.parseInner
                Sample.parseDocument Sample.serialize Sample.styleSheet
                Sample.md5hex Sample.dirname w (Sample.src "d") Hd) as E.
  rewrite Hb in E. exact E.
Defined.



Lemma render_failure_writes_nothing_witness :
  let p := Sample.src "bad.html" in
  let w := MkWorld {[p := File true "$\frac{$"]} ∅ initStat [] in
  Sample.process p w
  = Throw RenderError
      (ensured (Sample.dirname (getTargetPathFrom p))
         (withFingerprint p (Sample.md5hex "$\frac{$") w)).
Proof.
  intros p w.
  assert (fsys w !! p = Some (File true "$\frac{$")) as Hf
    by (vm_compute; reflexivity).
  assert (cache w !! p <> Some (Sample.md5hex "$\frac{$")) as Hc
    by (vm_compute; discriminate).
  assert (blocked (Sample.dirname (getTargetPathFrom p)) w = false) as Hb
    by (vm_compute; reflexivity).
  pose proof (render_failure_writes_nothing Sample.convert Sample.parseInner
                Sample.parseDocument Sample.serialize Sample.styleSheet
                Sample.md5hex Sample.dirname w p "$\frac{$"
                Hf eq_refl eq_refl Hc eq_refl) as E.
  rewrite Hb in E. exact E.
Defined.

(** The directories a target directory is made through, and a target
    that cannot be made for a regular file standing above it. *)
Example ancestors_of_target :
  ancestors (Sample.dst "posts/2020")
  = ["/Users"; "/Users/ntalbs"; "/Users/ntalbs/Blog";
     "/Users/ntalbs/Blog/rendered-public";
     "/Users/ntalbs/Blog/rendered-public/posts"].
Proof. reflexivity. Qed.

Example directory_below_file_throws :
  let w := initWorld (list_to_map [(Sample.src "f/sub", Dir);
                                   (Sample.dst "f", File true "x")]) in
  Sample.process (Sample.src "f/sub") w
  = Throw (ENOTDIR (Sample.dst "f/sub")) w.
Proof. vm_compute; reflexivity. Qed.

Example copy_makes_the_directories :
  let p := Sample.src "posts/c.txt" in
  let w := initWorld {[p := File true "ccc"]} in
  fsys (worldOf (Sample.process p w))
  = list_to_map
      [(p, File true "ccc");
       ("/Users", Dir); ("/Users/ntalbs", Dir); ("/Users/ntalbs/Blog", Dir);
       ("/Users/ntalbs/Blog/rendered-public", Dir);
       ("/Users/ntalbs/Blog/rendered-public/posts", Dir);
       (Sample.dst "posts/c.txt", File true "ccc")].
Proof. vm_compute; reflexivity. Qed.

Lemma sample_first_run :
  Sample.run Sample.listing Sample.site = Ok tt Sample.afterFirstRun.
Proof. vm_compute; reflexivity. Qed.

Lemma sample_listing_below :
  Forall (fun q => underSource q = true) Sample.listing.
Proof. repeat constructor. Qed.

Lemma sample_codec :
  Sample.JSON_parse (Sample.JSON_stringify (cache Sample.afterFirstRun))
  = Some (cache Sample.afterFirstRun).
Proof. vm_compute; reflexivity. Qed.

Lemma every_entry_counted_once_witness :
  counterSum (stat Sample.afterFirstRun)
  = countedEntries Sample.site Sample.listing
  /\ total (stat Sample.afterFirstRun)
     = Some (countedEntries Sample.site Sample.listing).
Proof.
  apply (every_entry_counted_once Sample.convert Sample.parseInner
           Sample.parseDocument Sample.serialize Sample.styleSheet
           Sample.md5hex Sample.dirname Sample.JSON_stringify
           Sample.JSON_parse Sample.listing Sample.site).
  - apply sample_first_run.
  - apply sample_listing_below.
  - repeat constructor; vm_compute; by eexists.
Defined.

Lemma saved_cache_is_loaded_witness :
  fsys Sample.afterFirstRun !! cacheFile
  = Some (File true (Sample.JSON_stringify (cache Sample.afterFirstRun)))
  /\ prologue Sample.JSON_parse 4 (initWorld (fsys Sample.afterFirstRun))
     = Ok tt (MkWorld (fsys Sample.afterFirstRun) (cache Sample.afterFirstRun)
                initStat [StartMsg 4]).
Proof.
  apply (saved_cache_is_loaded Sample.convert Sample.parseInner
           Sample.parseDocument Sample.serialize Sample.styleSheet
           Sample.md5hex Sample.dirname Sample.JSON_stringify
           Sample.JSON_parse Sample.listing Sample.site).
  - apply sample_first_run.
  - apply sample_codec.
Defined.

Lemma source_tree_untouched_witness :
  fsys (worldOf (Sample.run Sample.listing Sample.site))
    !! Sample.src "a.html"
  = Some (File true "x $y$ and $$z$$").
Proof.
  apply (source_tree_untouched Sample.convert Sample.parseInner
           Sample.parseDocument Sample.serialize Sample.styleSheet
           Sample.md5hex Sample.dirname Sample.JSON_stringify
           Sample.JSON_parse Sample.listing Sample.site).
  - apply sample_listing_below.
  - reflexivity.
  - vm_compute; reflexivity.
Defined.

Lemma stale_entries_persist_witness :
  let w0 := MkWorld Sample.siteLater (cache Sample.afterFirstRun) initStat
              [StartMsg 1] in
  cache (worldOf (Sample.run [Sample.src "a.html"] Sample.siteLater))
    !! Sample.src "gone.txt"
  = cache w0 !! Sample.src "gone.txt"
  /\ is_Some
       (cache (worldOf (Sample.run [Sample.src "a.html"] Sample.siteLater))
          !! Sample.src "c.txt").
Proof.
  intros w0.
  apply (stale_entries_persist Sample.convert Sample.parseInner
           Sample.parseDocument Sample.serialize Sample.styleSheet
           Sample.md5hex Sample.dirname Sample.JSON_stringify
           Sample.JSON_parse [Sample.src "a.html"] Sample.siteLater w0).
  - vm_compute; reflexivity.
  - intros H. apply list_elem_of_In in H. simpl in H.
    destruct H as [H|[]]; vm_compute in H; discriminate.
  - vm_compute. by eexists.
Defined.

Lemma second_run_changes_nothing_witness :
  exists w2,
    Sample.run Sample.listing (fsys Sample.afterFirstRun) = Ok tt w2
    /\ fsys w2 = fsys Sample.afterFirstRun
    /\ cache w2 = cache Sample.afterFirstRun
    /\ rendered (stat w2) = 0 /\ copied (stat w2) = 0.
Proof.
  apply (second_run_changes_nothing Sample.convert Sample.parseInner
           Sample.parseDocument Sample.serialize Sample.styleSheet
           Sample.md5hex Sample.dirname Sample.JSON_stringify
           Sample.JSON_parse Sample.listing Sample.site).
  - apply sample_first_run.
  - apply sample_listing_below.
  - apply sample_codec.
Defined.

End DriverLaws.
